(** * Mutation-Rate-Calculator: the FASTA loader and the mutation-rate calculator

    A shallow embedding of [mut_calc/mutation.py], [mut_calc/fasta.py] and the
    [run] method of [main.py].

    Modelling conventions.
    - A Python [str] is a [string] (a list of 8-bit characters).  The text is
      taken to be ASCII: [str.strip] and [str.upper] are written out for code
      points below 128, which is where Python's Unicode tables and these
      definitions agree.
    - A Python [int] is a [Z].
    - The float produced by [mutations / comparable] (true division of two
      ints) is given by its value, a rational in [Q]: the binary64 number
      nearest to the exact quotient, ties to even, subnormal numbers
      included.
    - A raised exception is the [Raise] case of [result].
    - The [dict] built by [read_fasta] is a [gmap string string]; the order of
      insertion, which no property below depends on, is not kept.
    - [read_fasta] is modelled on the decoded text of the file it is given;
      failures of [open] and of the UTF-8 decoder are outside the model.
    - For [main.py], which goes through the dictionary in its order, module
      [Ordered] runs the same loop on the list of items in insertion order;
      it is proved to stand for the same mapping.  Reading and writing files
      and the formatting of the rate with six decimals are taken from a
      [runtime] record, and the parsing of the command line is left out. *)

From Stdlib Require Import ZArith QArith Qabs Lia List Ascii String Bool.
From stdpp Require Import gmap strings pretty.

Import ListNotations.

Local Open Scope string_scope.

(** ** Exceptions *)

Inductive exn : Type :=
| ValueError (msg : string).

Inductive result (A : Type) : Type :=
| Ok (a : A)
| Raise (e : exn).

Arguments Ok {A} a.
Arguments Raise {A} e.

(** ** mut_calc/mutation.py *)

Module Mutation.

(** [zip(ref_seq, target_seq)]: pairs of characters, up to the shorter string. *)
Fixpoint zip (ref_seq target_seq : string) : list (ascii * ascii) :=
  match ref_seq, target_seq with
  | String r ref_seq', String t target_seq' => (r, t) :: zip ref_seq' target_seq'
  | _, _ => []
  end.

(** One iteration of the [for r, t in zip(...)] loop, on the pair of counters
    [(mutations, comparable)]. *)
Definition loop_body (exclude_gaps : bool) (st : Z * Z) (p : ascii * ascii) : Z * Z :=
  let '(mutations, comparable) := st in
  let '(r, t) := p in
  if exclude_gaps && (Ascii.eqb r "-" || Ascii.eqb t "-") then
    (mutations, comparable)
  else
    let comparable := (comparable + 1)%Z in
    if negb (Ascii.eqb r t) then ((mutations + 1)%Z, comparable)
    else (mutations, comparable).

(** The whole loop, from given counters. *)
Definition run_loop (exclude_gaps : bool) (ref_seq target_seq : string)
    (st : Z * Z) : Z * Z :=
  fold_left (loop_body exclude_gaps) (zip ref_seq target_seq) st.

(** The scale of the quotient of [a] by [b]: the [k] for which [a / b] times
    [2^k] lies between [2^52] and [2^53], so that rounding it to an integer
    keeps 53 significant bits; at most 1074, the scale of the subnormal
    numbers, which is also the scale of zero. *)
Definition exponent_shift (a b : Z) : Z :=
  if (a <=? 0)%Z then 1074%Z
  else
    let k0 := (52 + Z.log2 b - Z.log2 a)%Z in
    let k := if (2 ^ 52 * b <=? a * 2 ^ k0)%Z then k0 else (k0 + 1)%Z in
    Z.min 1074 k.

(** The integer nearest to [a / b], the even one of two equally near. *)
Definition round_half_even (a b : Z) : Z :=
  let q := (a / b)%Z in
  let r := (a mod b)%Z in
  if (2 * r <? b)%Z then q
  else if (b <? 2 * r)%Z then (q + 1)%Z
  else if Z.even q then q else (q + 1)%Z.

(** [a / b] on two ints with [0 <= a <= b] and [0 < b], the operands
    [compute_mutation_rate] divides: the binary64 number nearest to the
    quotient, ties to even, as Python's true division of ints returns it.
    The float is given by its value, a rational in lowest terms. *)
Definition true_div (a b : Z) : Q :=
  let k := exponent_shift a b in
  Qred (round_half_even (a * 2 ^ k) b # Z.to_pos (2 ^ k)).

(** [(mutations / comparable) if comparable > 0 else 0.0] *)
Definition rate_of (mutations comparable : Z) : Q :=
  if (0 <? comparable)%Z then true_div mutations comparable else 0%Q.

Definition compute_mutation_rate (ref_seq target_seq : string)
    (exclude_gaps : bool) : result (Z * Z * Q) :=
  if negb (String.length ref_seq =? String.length target_seq)%nat then
    Raise (ValueError "Aligned sequences must be of equal length")
  else
    let '(mutations, comparable) :=
      run_loop exclude_gaps ref_seq target_seq (0%Z, 0%Z) in
    let rate := rate_of mutations comparable in
    Ok (mutations, comparable, rate).

End Mutation.

(** ** mut_calc/fasta.py *)

Module Fasta.

Definition LF : ascii := "010"%char.
Definition CR : ascii := "013"%char.

(** The line terminator, as a one-character string. *)
Definition nl : string := String LF EmptyString.

(** Text-mode reading with universal newlines: a carriage return followed by a
    line feed, and a lone carriage return, are both read as one line feed. *)
Fixpoint universal_newlines (s : string) : string :=
  match s with
  | EmptyString => EmptyString
  | String c s' =>
      if Ascii.eqb c CR then
        String LF
          match s' with
          | String c' s'' =>
              if Ascii.eqb c' LF then universal_newlines s''
              else universal_newlines s'
          | EmptyString => EmptyString
          end
      else String c (universal_newlines s')
  end.

(** The lines of a text, each with its terminating line feed (the last line
    has none when the text does not end in one). *)
Fixpoint split_keepends (s : string) : list string :=
  match s with
  | EmptyString => []
  | String c s' =>
      if Ascii.eqb c LF then nl :: split_keepends s'
      else
        match split_keepends s' with
        | [] => [String c EmptyString]
        | l :: ls => String c l :: ls
        end
  end.

(** [for raw in f]: the lines the file object yields. *)
Definition readlines (content : string) : list string :=
  split_keepends (universal_newlines content).

(** [str.isspace] on the ASCII range: tab, line feed, vertical tab, form feed,
    carriage return, the four separators 28 to 31, and space. *)
Definition is_space (c : ascii) : bool :=
  let n := nat_of_ascii c in
  ((9 <=? n) && (n <=? 13) || (28 <=? n) && (n <=? 31) || (n =? 32))%nat.

Fixpoint lstrip (s : string) : string :=
  match s with
  | EmptyString => EmptyString
  | String c s' => if is_space c then lstrip s' else s
  end.

Fixpoint rstrip (s : string) : string :=
  match s with
  | EmptyString => EmptyString
  | String c s' =>
      match rstrip s' with
      | EmptyString => if is_space c then EmptyString else String c EmptyString
      | r => String c r
      end
  end.

(** [s.strip()] *)
Definition strip (s : string) : string := rstrip (lstrip s).

Definition upper_char (c : ascii) : ascii :=
  let n := nat_of_ascii c in
  if ((97 <=? n) && (n <=? 122))%nat then ascii_of_nat (n - 32) else c.

(** [s.upper()] *)
Fixpoint upper (s : string) : string :=
  match s with
  | EmptyString => EmptyString
  | String c s' => String (upper_char c) (upper s')
  end.

(** [s[1:]] *)
Definition drop1 (s : string) : string :=
  match s with
  | EmptyString => EmptyString
  | String _ s' => s'
  end.

(** [s.startswith(p)] *)
Definition startswith (s p : string) : bool := String.prefix p s.

(** Truth value of a string: [if s:] holds of the non-empty strings. *)
Definition truthy (s : string) : bool :=
  match s with
  | EmptyString => false
  | String _ _ => true
  end.

(** [sep.join(chunks)] for the empty separator [sep]. *)
Definition join (chunks : list string) : string := String.concat EmptyString chunks.

(** The loop state: [seqs], [current_id], [chunks]. *)
Record state : Type := State {
  seqs : gmap string string;
  current_id : string;
  chunks : list string
}.

Definition initial : state :=
  {| seqs := ∅; current_id := EmptyString; chunks := [] |}.

(** [if current_id: seqs[current_id] = join(chunks).upper()], the final or
    intermediate flush of the record being read. *)
Definition flush (st : state) : gmap string string :=
  if truthy (current_id st) then
    <[ current_id st := upper (join (chunks st)) ]> (seqs st)
  else seqs st.

(** One iteration of the [for raw in f] loop. *)
Definition step (st : state) (raw : string) : state :=
  let line := strip raw in
  if negb (truthy line) then st
  else if startswith line ">" then
    {| seqs := flush st; current_id := strip (drop1 line); chunks := [] |}
  else
    {| seqs := seqs st; current_id := current_id st;
       chunks := chunks st ++ [line] |}.

Definition run_lines (lines : list string) (st : state) : state :=
  fold_left step lines st.

(** The loop over given lines followed by the final flush. *)
Definition parse_lines (lines : list string) : gmap string string :=
  flush (run_lines lines initial).

Definition read_fasta (content : string) : gmap string string :=
  parse_lines (readlines content).

End Fasta.

(** ** The vocabulary of the specification *)

Module Spec.

(** The number of indices [i < n] at which [P] holds. *)
Fixpoint count_indices (n : nat) (P : nat -> bool) : Z :=
  match n with
  | O => 0%Z
  | S n' => (count_indices n' P + (if P n' then 1 else 0))%Z
  end.

(** [r[i] != t[i]], at an index within both strings. *)
Definition mismatch_at (r t : string) (i : nat) : bool :=
  match String.get i r, String.get i t with
  | Some a, Some b => negb (Ascii.eqb a b)
  | _, _ => false
  end.

(** [r[i] != '-' and t[i] != '-'], at an index within both strings. *)
Definition both_non_gap_at (r t : string) (i : nat) : bool :=
  match String.get i r, String.get i t with
  | Some a, Some b => negb (Ascii.eqb a "-") && negb (Ascii.eqb b "-")
  | _, _ => false
  end.

(** The positions the loop does not skip. *)
Definition comparable_at (exclude_gaps : bool) (r t : string) (i : nat) : bool :=
  match String.get i r, String.get i t with
  | Some a, Some b => negb (exclude_gaps && (Ascii.eqb a "-" || Ascii.eqb b "-"))
  | _, _ => false
  end.

(** The mutations the loop counts: the positions that are not skipped and hold
    two different characters. *)
Definition counted_mutation (exclude_gaps : bool) (r t : string) (i : nat) : bool :=
  comparable_at exclude_gaps r t i && mismatch_at r t i.

(** The value of a finite binary64 number: a significand of at most 53 bits
    times a power of two from [2^-1074] to [2^971]. *)
Definition binary64 (x : Q) : Prop :=
  exists n j : Z,
    (Z.abs n < 2 ^ 53)%Z /\ (0 <= j <= 2045)%Z /\
    (x == inject_Z (n * 2 ^ j) / inject_Z (2 ^ 1074))%Q.

(** The number of gap characters of a string. *)
Fixpoint count_gaps (s : string) : Z :=
  match s with
  | EmptyString => 0%Z
  | String c s' => ((if Ascii.eqb c "-" then 1 else 0) + count_gaps s')%Z
  end.

Definition in_alphabet (c : ascii) : bool :=
  existsb (Ascii.eqb c) ["A"; "C"; "G"; "T"; "-"]%char.

(** A string over the alphabet A, C, G, T, -. *)
Definition over_alphabet (s : string) : bool :=
  forallb in_alphabet (list_ascii_of_string s).

(** What one position adds to [(mutations, comparable)]. *)
Definition position_delta (exclude_gaps : bool) (a b : ascii) : Z * Z :=
  if exclude_gaps && (Ascii.eqb a "-" || Ascii.eqb b "-") then (0%Z, 0%Z)
  else ((if Ascii.ascii_dec a b then 0 else 1)%Z, 1%Z).

(** A raw line that is a header line once trimmed. *)
Definition is_header (raw : string) : bool :=
  Fasta.startswith (Fasta.strip raw) ">".

(** The identifier of a header line: marker removed, whitespace trimmed. *)
Definition header_id (raw : string) : string :=
  Fasta.strip (Fasta.drop1 (Fasta.strip raw)).

Definition no_header (body : list string) : bool :=
  forallb (fun raw => negb (is_header raw)) body.

(** The lines after a record either are exhausted or open the next record. *)
Definition starts_record (rest : list string) : bool :=
  match rest with
  | [] => true
  | h :: _ => is_header h
  end.

(** No header line of [rest] carries the identifier [id]. *)
Definition id_absent (id : string) (rest : list string) : bool :=
  forallb (fun raw => negb (is_header raw && String.eqb (header_id raw) id)) rest.

(** Some header line of [pre] carries the identifier [id]. *)
Definition id_present (id : string) (pre : list string) : bool :=
  existsb (fun raw => is_header raw && String.eqb (header_id raw) id) pre.

(** The content lines of a record body: trimmed, blank lines left out. *)
Definition content_lines (body : list string) : list string :=
  List.filter Fasta.truthy (map Fasta.strip body).

(** The content of a record: its content lines concatenated, in upper case. *)
Definition record_content (body : list string) : string :=
  Fasta.upper (Fasta.join (content_lines body)).

(** Every key of the collection under construction is a non-empty string. *)
Definition keys_nonempty (m : gmap string string) : Prop :=
  forall id, is_Some (m !! id) -> id <> EmptyString.

(** A line of text with its terminator. *)
Definition line (s : string) : string := s +:+ Fasta.nl.

(** The inputs of the loader examples. *)
Definition single_record_input : string :=
  ">A" +:+ Fasta.nl +:+ "ACGT" +:+ Fasta.nl +:+ "AC" +:+ Fasta.nl.

Definition two_record_input : string :=
  ">seq1" +:+ Fasta.nl +:+ "ACGT" +:+ Fasta.nl +:+ "-A" +:+ Fasta.nl
  +:+ ">seq2" +:+ Fasta.nl +:+ "AAAA".

Definition duplicate_input : string :=
  ">X" +:+ Fasta.nl +:+ "aaaa" +:+ Fasta.nl
  +:+ "> X " +:+ Fasta.nl +:+ "cc" +:+ Fasta.nl +:+ Fasta.nl +:+ "gg" +:+ Fasta.nl
  +:+ ">Y" +:+ Fasta.nl +:+ "tttt" +:+ Fasta.nl.

Definition anonymous_duplicate_input : string :=
  line ">" +:+ line "AA" +:+ line ">" +:+ line "CC".

Definition anonymous_input : string :=
  ">A" +:+ Fasta.nl +:+ "AC" +:+ Fasta.nl
  +:+ ">" +:+ Fasta.nl +:+ "GT" +:+ Fasta.nl
  +:+ ">B" +:+ Fasta.nl +:+ "AA".

End Spec.

(** ** Further vocabulary, for the properties beyond the specification *)

Module Notions.

(** A position at which one string or the other holds the gap character. *)
Definition either_gap_at (r t : string) (i : nat) : bool :=
  match String.get i r, String.get i t with
  | Some a, Some b => Ascii.eqb a "-" || Ascii.eqb b "-"
  | _, _ => false
  end.

(** A string without gap character. *)
Definition gap_free (s : string) : bool :=
  forallb (fun c => negb (Ascii.eqb c "-")) (list_ascii_of_string s).

(** A line feed or a carriage return. *)
Definition is_break (c : ascii) : bool :=
  Ascii.eqb c Fasta.LF || Ascii.eqb c Fasta.CR.

(** A string without line feed and without carriage return. *)
Fixpoint no_break (s : string) : bool :=
  match s with
  | EmptyString => true
  | String c s' => negb (is_break c) && no_break s'
  end.

(** A string with a line feed or carriage return at most as its last
    character: a line as the file object yields it. *)
Fixpoint break_only_last (s : string) : bool :=
  match s with
  | EmptyString => true
  | String c s' =>
      if is_break c then negb (Fasta.truthy s') else break_only_last s'
  end.

(** The loop state holds no break: neither in the collection, nor in the
    current identifier, nor in the chunks. *)
Definition break_free (st : Fasta.state) : Prop :=
  (forall id v, Fasta.seqs st !! id = Some v ->
                no_break id = true /\ no_break v = true) /\
  no_break (Fasta.current_id st) = true /\
  Forall (fun c => no_break c = true) (Fasta.chunks st).

End Notions.

(** ** The dictionary with its order of iteration *)

Module Dict.

(** A Python [dict] from [str] to [str], as the list of its items in the
    order [items()] yields them: the order in which the keys were first
    assigned. *)
Definition t : Type := list (string * string).

(** [d[k] = v]: a key already present keeps its place and takes the new
    value, a new key goes last. *)
Fixpoint set (k v : string) (d : t) : t :=
  match d with
  | [] => [(k, v)]
  | (k', v') :: d' =>
      if String.eqb k' k then (k', v) :: d' else (k', v') :: set k v d'
  end.

(** [d[k]], with [None] for a key that is not in [d]. *)
Fixpoint get (k : string) (d : t) : option string :=
  match d with
  | [] => None
  | (k', v') :: d' => if String.eqb k' k then Some v' else get k d'
  end.

Definition keys (d : t) : list string := map fst d.

Definition values (d : t) : list string := map snd d.

(** The mapping a dictionary stands for, its order forgotten. *)
Definition to_map (d : t) : gmap string string := list_to_map d.

End Dict.

(** ** mut_calc/fasta.py, on the ordered dictionary *)

Module Ordered.

Record state : Type := State {
  seqs : Dict.t;
  current_id : string;
  chunks : list string
}.

Definition initial : state :=
  {| seqs := []; current_id := EmptyString; chunks := [] |}.

Definition flush (st : state) : Dict.t :=
  if Fasta.truthy (current_id st) then
    Dict.set (current_id st) (Fasta.upper (Fasta.join (chunks st))) (seqs st)
  else seqs st.

Definition step (st : state) (raw : string) : state :=
  let line := Fasta.strip raw in
  if negb (Fasta.truthy line) then st
  else if Fasta.startswith line ">" then
    {| seqs := flush st; current_id := Fasta.strip (Fasta.drop1 line);
       chunks := [] |}
  else
    {| seqs := seqs st; current_id := current_id st;
       chunks := chunks st ++ [line] |}.

Definition run_lines (lines : list string) (st : state) : state :=
  fold_left step lines st.

(** [read_fasta], returning the dictionary with its order. *)
Definition read_fasta (content : string) : Dict.t :=
  flush (run_lines (Fasta.readlines content) initial).

(** The loop state with the order of the dictionary forgotten. *)
Definition erase (st : state) : Fasta.state :=
  {| Fasta.seqs := Dict.to_map (seqs st);
     Fasta.current_id := current_id st;
     Fasta.chunks := chunks st |}.

(** The identifiers of the header lines, in the order of the lines. *)
Definition header_ids (lines : list string) : list string :=
  List.filter Fasta.truthy
    (map Spec.header_id (List.filter Spec.is_header lines)).

(** Each element once, at the place of its first occurrence. *)
Definition first_occurrences (l : list string) : list string :=
  reverse (remove_dups (reverse l)).

End Ordered.

(** ** main.py *)

Module Main.

(** What the interpreter and the operating system supply to [run]: reading
    the text of a file, writing a text to a file, and the fixed-point
    formatting of a float with six decimals.  A failed operation raises an
    exception, of which [run] uses the text [str(e)] only.

    [write_text path text] stands for [open(path, "w")] followed by the write
    and the close.  The file is created or truncated as soon as it is opened,
    so a write that fails can leave it behind: [left_behind path text] is what
    the file holds after a failed [write_text path text], and [None] when the
    file could not be opened and is as it was. *)
Inductive attempt (A : Type) : Type :=
| Done (a : A)
| Failed (message : string).

Arguments Done {A} a.
Arguments Failed {A} message.

Record runtime : Type := Runtime {
  read_text : string -> attempt string;
  write_text : string -> string -> attempt unit;
  left_behind : string -> string -> option string;
  format_6f : Q -> string
}.

(** The parsed command line. *)
Record Args : Type := MkArgs {
  input : string;
  reference : string;
  exclude_gaps : bool;
  output : option string
}.

Record MutationRecord : Type := MkMutationRecord {
  sequence_id : string;
  mutations : Z;
  comparable_positions : Z;
  mutation_rate : Q
}.

(** What a run leaves behind: the value [run] returns, the texts printed to
    standard output and to standard error, and the file it has opened for
    writing, if any, with what the file holds when [run] returns. *)
Record outcome : Type := Outcome {
  exit_code : Z;
  stdout : list string;
  stderr : list string;
  written : option (string * string)
}.

Definition failure (code : Z) (message : string) : outcome :=
  {| exit_code := code; stdout := []; stderr := [message]; written := None |}.

(** The loop [for sid, seq in seqs.items()]; an exception of the calculator
    leaves the loop. *)
Fixpoint compute_records (ref_seq : string) (exclude_gaps : bool)
    (items : list (string * string)) : result (list MutationRecord) :=
  match items with
  | [] => Ok []
  | (sid, seq) :: items' =>
      match Mutation.compute_mutation_rate ref_seq seq exclude_gaps with
      | Raise e => Raise e
      | Ok (muts, comps, rate) =>
          match compute_records ref_seq exclude_gaps items' with
          | Raise e => Raise e
          | Ok results =>
              Ok ({| sequence_id := sid; mutations := muts;
                     comparable_positions := comps;
                     mutation_rate := rate |} :: results)
          end
      end
  end.

Definition header : string :=
  "sequence_id,mutations,comparable_positions,mutation_rate".

(** One row of the table; [str] of an integer is its decimal numeral. *)
Definition csv_line (rt : runtime) (rec : MutationRecord) : string :=
  sequence_id rec +:+ "," +:+ pretty (mutations rec) +:+ "," +:+
  pretty (comparable_positions rec) +:+ "," +:+
  format_6f rt (mutation_rate rec).

Definition csv_out (rt : runtime) (results : list MutationRecord) : string :=
  String.concat Fasta.nl (header :: map (csv_line rt) results).

(** [{len(s) for s in seqs.values()}] *)
Definition lengths (seqs : Dict.t) : gset nat :=
  list_to_set (map String.length (Dict.values seqs)).

(** The end of [run]: the table goes to the file named by a non-empty
    [--output], or else to standard output.  When the write fails the run
    reports it and returns 4; the file is then as the failed write left it. *)
Definition deliver (rt : runtime) (output : option string) (csv : string)
    : outcome :=
  let printed :=
    {| exit_code := 0; stdout := [csv]; stderr := []; written := None |} in
  match output with
  | Some path =>
      if Fasta.truthy path then
        match write_text rt path (csv +:+ Fasta.nl) with
        | Done _ =>
            {| exit_code := 0; stdout := ["Wrote results to " +:+ path];
               stderr := []; written := Some (path, csv +:+ Fasta.nl) |}
        | Failed message =>
            {| exit_code := 4; stdout := [];
               stderr := ["Error writing output: " +:+ message];
               written :=
                 option_map (pair path)
                   (left_behind rt path (csv +:+ Fasta.nl)) |}
        end
      else printed
  | None => printed
  end.

(** [MutationRateApp.run], after the command line has been parsed.  [Raise]
    stands for an exception that leaves [run]. *)
Definition run (rt : runtime) (args : Args) : result outcome :=
  match read_text rt (input args) with
  | Failed message => Ok (failure 1 ("Error reading FASTA: " +:+ message))
  | Done content =>
      let seqs := Ordered.read_fasta content in
      match Dict.get (reference args) seqs with
      | None =>
          Ok (failure 2 ("Reference sequence not found: " +:+ reference args))
      | Some ref_seq =>
          if negb (size (lengths seqs) =? 1)%nat then
            Ok (failure 3
                  "FASTA appears not aligned: sequences have different lengths")
          else
            match compute_records ref_seq (exclude_gaps args) seqs with
            | Raise e => Raise e
            | Ok results => Ok (deliver rt (output args) (csv_out rt results))
            end
      end
  end.

(** A record as the loop builds it for the sequence [seq] of key [sid]. *)
Definition record_of (ref_seq : string) (flag : bool) (sid seq : string)
    (rec : MutationRecord) : Prop :=
  sequence_id rec = sid /\
  Mutation.compute_mutation_rate ref_seq seq flag
  = Ok (mutations rec, comparable_positions rec, mutation_rate rec).

(** A sample runtime: two files to read, every write accepted, and a
    formatter of non-negative rationals with six decimals (half rounded up). *)
Definition sample_format (q : Q) : string :=
  let scaled := ((2 * 1000000 * Qnum q + Zpos (Qden q)) / (2 * Zpos (Qden q)))%Z in
  pretty (scaled / 1000000)%Z +:+ "." +:+
  Fasta.drop1 (pretty (1000000 + scaled mod 1000000)%Z).

Definition sample_alignment : string :=
  Spec.line ">ref" +:+ Spec.line "acgt" +:+ Spec.line ">s1" +:+
  Spec.line "AGGT" +:+ Spec.line ">s2" +:+ Spec.line "AC-T".

Definition sample_runtime : runtime :=
  {| read_text := fun path =>
       if String.eqb path "aln.fa" then Done sample_alignment
       else if String.eqb path "ragged.fa" then Done Spec.two_record_input
       else Failed "No such file";
     write_text := fun _ _ => Done tt;
     left_behind := fun _ _ => None;
     format_6f := sample_format |}.

(** The same files on a full disk: the output file is opened, and truncated,
    before the write fails. *)
Definition full_disk_runtime : runtime :=
  {| read_text := read_text sample_runtime;
     write_text := fun _ _ => Failed "No space left on device";
     left_behind := fun _ _ => Some EmptyString;
     format_6f := sample_format |}.

Definition sample_args (path reference : string) (output : option string) : Args :=
  {| input := path; reference := reference; exclude_gaps := false;
     output := output |}.

End Main.

(** * Properties of the calculator *)

Section Counting.

Import Spec.

Lemma count_indices_shift (n : nat) (P : nat -> bool) :
  count_indices (S n) P
  = ((if P O then 1 else 0) + count_indices n (fun i => P (S i)))%Z.
Proof.
  induction n as [|n IH]; [simpl; lia|].
  change (count_indices (S (S n)) P)
    with (count_indices (S n) P + (if P (S n) then 1 else 0))%Z.
  rewrite IH. simpl. lia.
Qed.

Lemma count_indices_ext (n : nat) (P Q : nat -> bool) :
  (forall i, (i < n)%nat -> P i = Q i) ->
  count_indices n P = count_indices n Q.
Proof.
  induction n as [|n IH]; intros H; [reflexivity|].
  simpl. rewrite (H n) by lia. rewrite IH; [reflexivity|].
  intros i Hi. apply H. lia.
Qed.

Lemma count_indices_le (n : nat) (P Q : nat -> bool) :
  (forall i, (i < n)%nat -> P i = true -> Q i = true) ->
  (count_indices n P <= count_indices n Q)%Z.
Proof.
  induction n as [|n IH]; intros H; [reflexivity|].
  simpl. assert (count_indices n P <= count_indices n Q)%Z as Hle.
  { apply IH. intros i Hi. apply H. lia. }
  specialize (H n (Nat.lt_succ_diag_r n)).
  destruct (P n), (Q n); first [lia | discriminate (H eq_refl)].
Qed.

Lemma count_indices_bounds (n : nat) (P : nat -> bool) :
  (0 <= count_indices n P <= Z.of_nat n)%Z.
Proof.
  induction n as [|n IH]; [simpl; lia|].
  simpl count_indices. destruct (P n); lia.
Qed.

Lemma count_indices_all (n : nat) (P : nat -> bool) :
  (forall i, (i < n)%nat -> P i = true) ->
  count_indices n P = Z.of_nat n.
Proof.
  induction n as [|n IH]; intros H; [reflexivity|].
  simpl count_indices. rewrite (H n) by lia. rewrite IH; [lia|].
  intros i Hi. apply H. lia.
Qed.

End Counting.

(** * True division of two ints *)

Section TrueDivision.

Import Spec Mutation.

Local Open Scope Z_scope.

Lemma exponent_shift_spec (a b : Z) :
  0 <= a <= b -> 0 < b ->
  52 <= exponent_shift a b <= 1074 /\
  a * 2 ^ exponent_shift a b < 2 ^ 53 * b /\
  (exponent_shift a b < 1074 -> 2 ^ 52 * b <= a * 2 ^ exponent_shift a b).
Proof.
  intros [Ha Hab] Hb. unfold exponent_shift.
  destruct (Z.leb_spec a 0) as [Hle|Hpos].
  - assert (a = 0) as -> by lia. split; [lia|]. split; [|lia].
    rewrite Z.mul_0_l. apply Z.mul_pos_pos; [|exact Hb]. now apply Z.pow_pos_nonneg.
  - pose proof (Z.log2_spec a Hpos) as [Ha1 Ha2].
    pose proof (Z.log2_spec b Hb) as [Hb1 Hb2].
    pose proof (Z.log2_nonneg a) as Hla.
    pose proof (Z.log2_le_mono a b Hab) as Hl.
    set (la := Z.log2 a) in *. set (lb := Z.log2 b) in *.
    set (k0 := 52 + lb - la).
    assert (0 <= k0) as Hk0 by (unfold k0; lia).
    assert (2 ^ la * 2 ^ k0 = 2 ^ 52 * 2 ^ lb) as Hpow.
    { rewrite <- !Z.pow_add_r by lia. f_equal. unfold k0. lia. }
    assert (0 < 2 ^ k0) as Hp0 by (apply Z.pow_pos_nonneg; lia).
    assert (0 < 2 ^ la) as Hpa by (apply Z.pow_pos_nonneg; lia).
    assert (0 < 2 ^ lb) as Hpb by (apply Z.pow_pos_nonneg; lia).
    assert (a * 2 ^ k0 < 2 ^ 53 * b) as Hup.
    { rewrite Z.pow_succ_r in Ha2 by lia.
      change (2 ^ 53) with (2 * 2 ^ 52). nia. }
    assert (2 ^ 52 * b < a * 2 ^ (k0 + 1)) as Hlow.
    { rewrite Z.pow_succ_r in Hb2 by lia.
      rewrite Z.pow_add_r by lia. change (2 ^ 1) with 2. nia. }
    set (k := if 2 ^ 52 * b <=? a * 2 ^ k0 then k0 else k0 + 1).
    assert (52 <= k /\ a * 2 ^ k < 2 ^ 53 * b /\ 2 ^ 52 * b <= a * 2 ^ k)
      as (Hk & Hk2 & Hk3).
    { unfold k. destruct (Z.leb_spec (2 ^ 52 * b) (a * 2 ^ k0)) as [H|H].
      - repeat split; [unfold k0; lia | exact Hup | exact H].
      - repeat split; [unfold k0; lia | | lia].
        rewrite Z.pow_add_r by lia. change (2 ^ 1) with 2.
        change (2 ^ 53) with (2 * 2 ^ 52). lia. }
    destruct (Z.min_spec 1074 k) as [[Hlt ->]|[Hge ->]].
    + split; [lia|]. split; [|lia].
      assert (2 ^ 1074 <= 2 ^ k) by (apply Z.pow_le_mono_r; lia). nia.
    + split; [lia|]. split; [exact Hk2 | intros _; exact Hk3].
Qed.

Lemma round_half_even_spec (a b : Z) :
  0 <= a -> 0 < b ->
  a / b <= round_half_even a b <= a / b + 1 /\
  2 * Z.abs (round_half_even a b * b - a) <= b /\
  forall y, Z.abs (round_half_even a b * b - a) <= Z.abs (y * b - a).
Proof.
  intros Ha Hb.
  pose proof (Z.div_mod a b ltac:(lia)) as Hdm.
  pose proof (Z.mod_pos_bound a b Hb) as Hr.
  unfold round_half_even.
  set (q := a / b) in *. set (r := a mod b) in *.
  destruct (Z.ltb_spec (2 * r) b) as [H1|H1].
  - split; [lia|]. split; [nia|]. intros y.
    destruct (Z_le_gt_dec y q); nia.
  - destruct (Z.ltb_spec b (2 * r)) as [H2|H2].
    + split; [lia|]. split; [nia|]. intros y.
      destruct (Z_le_gt_dec y q); nia.
    + destruct (Z.even q).
      * split; [lia|]. split; [nia|]. intros y.
        destruct (Z_le_gt_dec y q); nia.
      * split; [lia|]. split; [nia|]. intros y.
        destruct (Z_le_gt_dec y q); nia.
Qed.


Lemma pow2_pos (k : Z) : 0 <= k -> 0 < 2 ^ k.
Proof. intros Hk. now apply Z.pow_pos_nonneg. Qed.

Lemma inject_Z_nonzero (z : Z) : z <> 0 -> ~ (inject_Z z == 0)%Q.
Proof. intros Hz H. apply Hz. unfold Qeq in H. cbn in H. lia. Qed.

(** The value of [true_div], before reduction to lowest terms. *)
Lemma true_div_value (a b : Z) :
  0 <= a <= b -> 0 < b ->
  (true_div a b
   == inject_Z (round_half_even (a * 2 ^ exponent_shift a b) b)
      / inject_Z (2 ^ exponent_shift a b))%Q.
Proof.
  intros Hab Hb. destruct (exponent_shift_spec a b Hab Hb) as (Hk & _ & _).
  unfold true_div. rewrite Qred_correct, Qmake_Qdiv.
  rewrite Z2Pos.id by (apply pow2_pos; lia). reflexivity.
Qed.

Lemma Qabs_inject_Z (z : Z) : Qabs (inject_Z z) = inject_Z (Z.abs z).
Proof. reflexivity. Qed.

Lemma Qabs_le_scaled (u v : Q) (p U V : Z) :
  0 < p ->
  (u * inject_Z p == inject_Z U)%Q ->
  (v * inject_Z p == inject_Z V)%Q ->
  Z.abs U <= Z.abs V ->
  (Qabs u <= Qabs v)%Q.
Proof.
  intros Hp Hu Hv HUV.
  assert (0 < inject_Z p)%Q as Hq
    by (change 0%Q with (inject_Z 0); now rewrite <- Zlt_Qlt).
  apply (Qmult_le_r _ _ (inject_Z p) Hq).
  assert (forall w, Qabs w * inject_Z p == Qabs (w * inject_Z p))%Q as Habs.
  { intros w. rewrite Qabs_Qmult. rewrite (Qabs_pos (inject_Z p)); [reflexivity|].
    now apply Qlt_le_weak. }
  rewrite !Habs, Hu, Hv, !Qabs_inject_Z. now rewrite <- Zle_Qle.
Qed.


Lemma Qdiv_inject_Z_eq (a b c d : Z) :
  b <> 0 -> d <> 0 -> a * d = c * b ->
  (inject_Z a / inject_Z b == inject_Z c / inject_Z d)%Q.
Proof.
  intros Hb Hd H.
  apply (Qmult_inj_r _ _ (inject_Z b * inject_Z d)).
  { rewrite <- inject_Z_mult. apply inject_Z_nonzero. lia. }
  transitivity (inject_Z (a * d)).
  { rewrite inject_Z_mult. field. now apply inject_Z_nonzero. }
  rewrite H, inject_Z_mult. field. now apply inject_Z_nonzero.
Qed.

(** The rounded mantissa lies between 0 and the scale. *)
Lemma true_div_mantissa (a b : Z) :
  0 <= a <= b -> 0 < b ->
  0 <= round_half_even (a * 2 ^ exponent_shift a b) b <= 2 ^ exponent_shift a b /\
  round_half_even (a * 2 ^ exponent_shift a b) b <= 2 ^ 53.
Proof.
  intros Hab Hb.
  destruct (exponent_shift_spec a b Hab Hb) as (Hk & Hup & _).
  set (k := exponent_shift a b) in *.
  assert (0 < 2 ^ k) as HK by (apply pow2_pos; lia).
  assert (0 <= a * 2 ^ k) as Ha by nia.
  destruct (round_half_even_spec (a * 2 ^ k) b Ha Hb) as (Hq & Hhalf & _).
  pose proof (Z.div_pos (a * 2 ^ k) b Ha Hb) as Hdiv.
  set (N := round_half_even (a * 2 ^ k) b) in *.
  split; [split; [lia | nia] | nia].
Qed.

Lemma true_div_bounds (a b : Z) :
  0 <= a <= b -> 0 < b -> (0 <= true_div a b <= 1)%Q.
Proof.
  intros Hab Hb.
  destruct (exponent_shift_spec a b Hab Hb) as (Hk & _ & _).
  destruct (true_div_mantissa a b Hab Hb) as ([HN0 HN1] & _).
  rewrite (true_div_value a b Hab Hb).
  assert (0 < 2 ^ exponent_shift a b) as HK by (apply pow2_pos; lia).
  assert (0 < inject_Z (2 ^ exponent_shift a b))%Q as HQ
    by (change 0%Q with (inject_Z 0); now rewrite <- Zlt_Qlt).
  split.
  - apply Qle_shift_div_l; [exact HQ|]. rewrite Qmult_0_l.
    change 0%Q with (inject_Z 0). now rewrite <- Zle_Qle.
  - apply Qle_shift_div_r; [exact HQ|]. rewrite Qmult_1_l.
    now rewrite <- Zle_Qle.
Qed.

Lemma true_div_zero (b : Z) : 0 < b -> (true_div 0 b == 0)%Q.
Proof.
  intros Hb. rewrite (true_div_value 0 b) by lia.
  rewrite Z.mul_0_l.
  assert (round_half_even 0 b = 0) as ->.
  { unfold round_half_even. rewrite Z.div_0_l, Z.mod_0_l by lia.
    destruct (Z.ltb_spec (2 * 0) b); [reflexivity | lia]. }
  unfold Qdiv. apply Qmult_0_l.
Qed.

(** The quotient is a binary64 number. *)
Lemma true_div_binary64 (a b : Z) :
  0 <= a <= b -> 0 < b -> binary64 (true_div a b).
Proof.
  intros Hab Hb.
  destruct (exponent_shift_spec a b Hab Hb) as (Hk & _ & _).
  destruct (true_div_mantissa a b Hab Hb) as ([HN0 _] & HN).
  set (k := exponent_shift a b) in *.
  set (N := round_half_even (a * 2 ^ k) b) in *.
  assert (0 < 2 ^ k) as HK by (apply pow2_pos; lia).
  assert (0 < 2 ^ 1074) as HD by (apply pow2_pos; lia).
  destruct (Z.eq_dec N (2 ^ 53)) as [HN53|HN53].
  - exists (2 ^ 52), (1075 - k). split; [|split; [lia|]].
    { rewrite Z.abs_eq by (apply Z.pow_nonneg; lia).
      apply Z.pow_lt_mono_r; lia. }
    rewrite (true_div_value a b Hab Hb). fold k N.
    apply Qdiv_inject_Z_eq; [lia | lia |].
    rewrite HN53. rewrite <- !Z.pow_add_r by lia. f_equal. lia.
  - exists N, (1074 - k). split; [|split; [lia|]].
    { rewrite Z.abs_eq by exact HN0. lia. }
    rewrite (true_div_value a b Hab Hb). fold k N.
    apply Qdiv_inject_Z_eq; [lia | lia |].
    rewrite <- Z.mul_assoc, <- Z.pow_add_r by lia.
    do 2 f_equal. lia.
Qed.

(** No binary64 number is nearer to the exact quotient. *)
Lemma true_div_nearest_Z (a b k N n j : Z) :
  0 <= a -> 0 < b -> 52 <= k <= 1074 ->
  (k < 1074 -> 2 ^ 52 * b <= a * 2 ^ k) ->
  2 * Z.abs (N * b - a * 2 ^ k) <= b ->
  (forall y, Z.abs (N * b - a * 2 ^ k) <= Z.abs (y * b - a * 2 ^ k)) ->
  Z.abs n < 2 ^ 53 -> 0 <= j <= 2045 ->
  Z.abs ((N * b - a * 2 ^ k) * 2 ^ 1074)
  <= Z.abs ((n * 2 ^ j * b - a * 2 ^ 1074) * 2 ^ k).
Proof.
  intros Ha Hb Hk Hnormal Hhalf Hnear Hn Hj.
  assert (0 < 2 ^ k) as HK by (apply pow2_pos; lia).
  assert (0 < 2 ^ 1074) as HD by (apply pow2_pos; lia).
  assert (0 < 2 ^ j) as HJ by (apply pow2_pos; lia).
  rewrite !Z.abs_mul, (Z.abs_eq (2 ^ 1074)), (Z.abs_eq (2 ^ k)) by lia.
  destruct (Z_le_gt_dec 1074 (j + k)) as [Hjk|Hjk].
  - assert (2 ^ j * 2 ^ k = 2 ^ (j + k - 1074) * 2 ^ 1074) as Hpow.
    { rewrite <- !Z.pow_add_r by lia. f_equal. lia. }
    specialize (Hnear (n * 2 ^ (j + k - 1074))).
    assert ((n * 2 ^ j * b - a * 2 ^ 1074) * 2 ^ k
            = (n * 2 ^ (j + k - 1074) * b - a * 2 ^ k) * 2 ^ 1074) as Heq.
    { set (e := 2 ^ (j + k - 1074)) in *. nia. }
    rewrite <- (Z.abs_eq (2 ^ k)) at 2 by lia.
    rewrite <- Z.abs_mul, Heq, Z.abs_mul, (Z.abs_eq (2 ^ 1074)) by lia.
    apply Z.mul_le_mono_nonneg_r; [lia | exact Hnear].
  - specialize (Hnormal ltac:(lia)).
    assert (2 * (2 ^ j * 2 ^ k) <= 2 ^ 1074) as Hpow.
    { rewrite <- Z.pow_add_r, <- Z.pow_succ_r by lia.
      apply Z.pow_le_mono_r; lia. }
    set (K := 2 ^ k) in *. set (D := 2 ^ 1074) in *. set (J := 2 ^ j) in *.
    set (A := Z.abs (N * b - a * K)) in *.
    assert (0 <= A) as HA by apply Z.abs_nonneg.
    assert (Z.abs n * (2 * (J * K)) <= (2 ^ 53 - 1) * D) as Hx.
    { assert (0 <= Z.abs n) by apply Z.abs_nonneg. nia. }
    assert (2 * (A * D) <= b * D) as Hl by nia.
    assert (b * D <= 2 * (Z.abs (n * J * b - a * D) * K)) as Hr.
    { assert (a * D - Z.abs n * J * b <= Z.abs (n * J * b - a * D)) as Hd.
      { assert (n * J * b <= Z.abs n * J * b) by
          (apply Z.mul_le_mono_nonneg_r; [lia|];
           apply Z.mul_le_mono_nonneg_r; lia).
        lia. }
      assert (2 ^ 53 = 2 * 2 ^ 52) as H53 by reflexivity.
      set (p52 := 2 ^ 52) in *.
      assert (2 * (a * D - Z.abs n * J * b) * K
              <= 2 * (Z.abs (n * J * b - a * D) * K)) by nia.
      assert (b * D <= 2 * (a * D - Z.abs n * J * b) * K); [|lia].
      assert (2 * (a * K) * D >= 2 * (p52 * b) * D) by nia.
      assert (Z.abs n * (2 * (J * K)) * b <= (2 ^ 53 - 1) * D * b) by nia.
      rewrite H53 in *. nia. }
    lia.
Qed.

Lemma true_div_nearest (a b : Z) (x : Q) :
  0 <= a <= b -> 0 < b -> binary64 x ->
  (Qabs (true_div a b - inject_Z a / inject_Z b)
   <= Qabs (x - inject_Z a / inject_Z b))%Q.
Proof.
  intros Hab Hb (n & j & Hn & Hj & Hx).
  destruct (exponent_shift_spec a b Hab Hb) as (Hk & _ & Hnormal).
  set (k := exponent_shift a b) in *.
  assert (0 < 2 ^ k) as HK by (apply pow2_pos; lia).
  assert (0 < 2 ^ 1074) as HD by (apply pow2_pos; lia).
  assert (0 <= a * 2 ^ k) as Ha by nia.
  destruct (round_half_even_spec (a * 2 ^ k) b Ha Hb) as (_ & Hhalf & Hnear).
  pose proof (true_div_value a b Hab Hb) as Hv. fold k in Hv.
  set (N := round_half_even (a * 2 ^ k) b) in *.
  apply (Qabs_le_scaled _ _ (2 ^ k * b * 2 ^ 1074)
           ((N * b - a * 2 ^ k) * 2 ^ 1074)
           ((n * 2 ^ j * b - a * 2 ^ 1074) * 2 ^ k)).
  - nia.
  - rewrite Hv. rewrite !inject_Z_mult.
    unfold Zminus. rewrite inject_Z_plus, inject_Z_opp, !inject_Z_mult.
    field. split; apply inject_Z_nonzero; lia.
  - rewrite Hx. rewrite !inject_Z_mult.
    unfold Zminus. rewrite inject_Z_plus, inject_Z_opp, !inject_Z_mult.
    field. split; apply inject_Z_nonzero; lia.
  - apply true_div_nearest_Z; trivial; lia.
Qed.


Lemma Qdiv_inject_Z_0 (n d : Z) :
  0 < d -> (inject_Z n / inject_Z d == 0)%Q <-> n = 0.
Proof.
  intros Hd. split.
  - intros H. apply (Qmult_inj_r _ _ (inject_Z d)) in H;
      [|apply inject_Z_nonzero; lia].
    rewrite Qmult_0_l in H.
    assert (inject_Z n / inject_Z d * inject_Z d == inject_Z n)%Q as E
      by (field; apply inject_Z_nonzero; lia).
    rewrite E in H. unfold Qeq in H. cbn in H. lia.
  - intros ->. unfold Qdiv. apply Qmult_0_l.
Qed.

Lemma Qdiv_inject_Z_1 (n d : Z) :
  0 < d -> (inject_Z n / inject_Z d == 1)%Q <-> n = d.
Proof.
  intros Hd. split.
  - intros H. apply (Qmult_inj_r _ _ (inject_Z d)) in H;
      [|apply inject_Z_nonzero; lia].
    rewrite Qmult_1_l in H.
    assert (inject_Z n / inject_Z d * inject_Z d == inject_Z n)%Q as E
      by (field; apply inject_Z_nonzero; lia).
    rewrite E in H. unfold Qeq in H. cbn in H. lia.
  - intros ->. field. apply inject_Z_nonzero. lia.
Qed.

(** Below 2^53 the quotient is 0 only of a zero dividend, and 1 only of equal
    operands: rounding moves no quotient onto 0 or 1. *)
Lemma true_div_extremes (a b : Z) :
  0 <= a <= b -> 0 < b -> b < 2 ^ 53 ->
  ((true_div a b == 0)%Q <-> a = 0) /\ ((true_div a b == 1)%Q <-> a = b).
Proof.
  intros Hab Hb Hbound.
  destruct (exponent_shift_spec a b Hab Hb) as (Hk & Hup & Hnormal).
  set (k := exponent_shift a b) in *.
  assert (0 < 2 ^ k) as HK by (apply pow2_pos; lia).
  assert (2 ^ 52 <= 2 ^ k) as HK52 by (apply Z.pow_le_mono_r; lia).
  assert (0 <= a * 2 ^ k) as Ha by nia.
  destruct (round_half_even_spec (a * 2 ^ k) b Ha Hb) as (Hq & Hhalf & Hnear).
  rewrite (true_div_value a b Hab Hb). fold k.
  set (N := round_half_even (a * 2 ^ k) b) in *.
  rewrite (Qdiv_inject_Z_0 N (2 ^ k) HK), (Qdiv_inject_Z_1 N (2 ^ k) HK).
  assert (2 ^ 53 = 2 * 2 ^ 52) as H53 by reflexivity.
  split; split.
  - intros HN. destruct (Z.eq_dec a 0) as [|Hne]; [assumption|]. exfalso.
    assert (k < 1074) as Hlt.
    { destruct (Z_lt_ge_dec k 1074) as [|Hge]; [assumption|].
      assert (k = 1074) as Hk' by lia.
      assert (2 ^ 53 * 2 ^ 53 <= 2 ^ k)
        by (rewrite <- Z.pow_add_r by lia; apply Z.pow_le_mono_r; lia).
      nia. }
    specialize (Hnormal Hlt). rewrite HN in Hhalf.
    rewrite Z.mul_0_l, Z.sub_0_l, Z.abs_opp, Z.abs_eq in Hhalf by lia. nia.
  - intros ->. specialize (Hnear 0). rewrite !Z.mul_0_l in Hnear.
    cbn in Hnear. assert (Z.abs (N * b) <= 0) as H0 by lia.
    assert (N * b = 0) by lia. nia.
  - intros HN. destruct (Z.eq_dec a b) as [|Hne]; [assumption|]. exfalso.
    rewrite HN in Hhalf.
    assert (2 ^ k * b - a * 2 ^ k = 2 ^ k * (b - a)) as E by ring.
    rewrite E, Z.abs_eq in Hhalf by nia. nia.
  - intros ->. specialize (Hnear (2 ^ k)).
    replace (2 ^ k * b - b * 2 ^ k) with 0 in Hnear by ring.
    cbn in Hnear. assert (N * b - b * 2 ^ k = 0) as H0 by lia. nia.
Qed.

End TrueDivision.

Section Calculator.

Import Spec Mutation.

Lemma run_loop_cons flag a b r t st :
  run_loop flag (String a r) (String b t) st
  = run_loop flag r t (loop_body flag st (a, b)).
Proof. reflexivity. Qed.

Lemma loop_body_delta flag st a b :
  loop_body flag st (a, b)
  = ((st.1 + (position_delta flag a b).1)%Z, (st.2 + (position_delta flag a b).2)%Z).
Proof.
  destruct st as [m c]. unfold loop_body, position_delta.
  destruct (flag && (Ascii.eqb a "-" || Ascii.eqb b "-")); simpl.
  - f_equal; lia.
  - destruct (Ascii.ascii_dec a b) as [->|Hne].
    + rewrite Ascii.eqb_refl. simpl. f_equal; lia.
    + apply Ascii.eqb_neq in Hne. rewrite Hne. reflexivity.
Qed.

(** The counters after the loop, by index. *)
Lemma run_loop_counts flag r : forall t st,
  String.length r = String.length t ->
  run_loop flag r t st
  = ((st.1 + count_indices (String.length r) (counted_mutation flag r t))%Z,
     (st.2 + count_indices (String.length r) (comparable_at flag r t))%Z).
Proof.
  induction r as [|a r IH]; intros [|b t] [m c] Hlen; try discriminate.
  - cbn. f_equal; lia.
  - injection Hlen as Hlen. rewrite run_loop_cons, (IH _ _ Hlen).
    cbn [String.length]. rewrite !count_indices_shift.
    change (count_indices (String.length r)
              (fun i => counted_mutation flag (String a r) (String b t) (S i)))
      with (count_indices (String.length r) (counted_mutation flag r t)).
    change (count_indices (String.length r)
              (fun i => comparable_at flag (String a r) (String b t) (S i)))
      with (count_indices (String.length r) (comparable_at flag r t)).
    change (counted_mutation flag (String a r) (String b t) 0)
      with (negb (flag && (Ascii.eqb a "-" || Ascii.eqb b "-"))
            && negb (Ascii.eqb a b)).
    change (comparable_at flag (String a r) (String b t) 0)
      with (negb (flag && (Ascii.eqb a "-" || Ascii.eqb b "-"))).
    unfold loop_body.
    destruct (flag && (Ascii.eqb a "-" || Ascii.eqb b "-")); cbn [negb andb fst snd].
    + f_equal; lia.
    + destruct (Ascii.eqb a b); cbn [negb fst snd]; f_equal; lia.
Qed.

(** The loop over two concatenations of equal-length parts. *)
Lemma run_loop_app flag pre_r : forall pre_t suf_r suf_t st,
  String.length pre_r = String.length pre_t ->
  run_loop flag (pre_r +:+ suf_r) (pre_t +:+ suf_t) st
  = run_loop flag suf_r suf_t (run_loop flag pre_r pre_t st).
Proof.
  induction pre_r as [|a r IH]; intros [|b t] suf_r suf_t st Hlen;
    try discriminate; [reflexivity|].
  injection Hlen as Hlen.
  change (String a r +:+ suf_r) with (String a (r +:+ suf_r)).
  change (String b t +:+ suf_t) with (String b (t +:+ suf_t)).
  rewrite !run_loop_cons. apply IH, Hlen.
Qed.

(** The counters add up: the loop from [st] is the loop from zero, shifted. *)
Lemma run_loop_shift flag r : forall t st,
  run_loop flag r t st
  = ((st.1 + (run_loop flag r t (0%Z, 0%Z)).1)%Z,
     (st.2 + (run_loop flag r t (0%Z, 0%Z)).2)%Z).
Proof.
  induction r as [|a r IH]; intros [|b t] [m c];
    try (cbn; f_equal; lia).
  rewrite !run_loop_cons.
  rewrite (IH t (loop_body flag (m, c) (a, b))).
  rewrite (IH t (loop_body flag (0%Z, 0%Z) (a, b))).
  rewrite !loop_body_delta. cbn [fst snd]. f_equal; lia.
Qed.

Lemma compute_equal_length r t flag :
  String.length r = String.length t ->
  compute_mutation_rate r t flag
  = Ok (count_indices (String.length r) (counted_mutation flag r t),
        count_indices (String.length r) (comparable_at flag r t),
        rate_of (count_indices (String.length r) (counted_mutation flag r t))
                (count_indices (String.length r) (comparable_at flag r t))).
Proof.
  intros Hlen. unfold compute_mutation_rate.
  rewrite Hlen, Nat.eqb_refl. cbn [negb].
  rewrite <- Hlen, (run_loop_counts flag r t _ Hlen). reflexivity.
Qed.

End Calculator.

Section CalculatorFacts.

Import Spec Mutation.

Lemma get_within (s : string) : forall i,
  (i < String.length s)%nat -> exists c, String.get i s = Some c.
Proof.
  induction s as [|a s IH]; intros i Hi; [cbn in Hi; lia|].
  destruct i as [|i]; [exists a; reflexivity|].
  cbn in *. apply IH. lia.
Qed.

Lemma string_length_app (s1 s2 : string) :
  String.length (s1 +:+ s2) = (String.length s1 + String.length s2)%nat.
Proof.
  induction s1 as [|a s1 IH]; [reflexivity|].
  change (String.length (String a s1 +:+ s2))
    with (S (String.length (s1 +:+ s2))).
  now rewrite IH.
Qed.

Lemma count_indices_none (n : nat) (P : nat -> bool) :
  (forall i, (i < n)%nat -> P i = false) -> count_indices n P = 0%Z.
Proof.
  induction n as [|n IH]; intros H; [reflexivity|].
  cbn [count_indices]. rewrite (H n) by lia. rewrite IH; [reflexivity|].
  intros i Hi. apply H. lia.
Qed.

(** Without gap exclusion every position within the strings is comparable. *)
Lemma comparable_at_keep_gaps r t i :
  String.length r = String.length t -> (i < String.length r)%nat ->
  comparable_at false r t i = true.
Proof.
  intros Hlen Hi. unfold comparable_at.
  destruct (get_within r i Hi) as [a ->].
  destruct (get_within t i ltac:(lia)) as [b ->]. reflexivity.
Qed.

(** With gap exclusion the comparable positions are those free of gaps. *)
Lemma comparable_at_exclude_gaps r t i :
  comparable_at true r t i = both_non_gap_at r t i.
Proof.
  unfold comparable_at, both_non_gap_at.
  destruct (String.get i r), (String.get i t); try reflexivity.
  cbn [andb]. apply negb_orb.
Qed.

Lemma mismatch_at_self r i : mismatch_at r r i = false.
Proof.
  unfold mismatch_at. destruct (String.get i r); [|reflexivity].
  now rewrite Ascii.eqb_refl.
Qed.

Lemma count_comparable_self (r : string) :
  count_indices (String.length r) (comparable_at true r r)
  = (Z.of_nat (String.length r) - count_gaps r)%Z.
Proof.
  induction r as [|a r IH]; [reflexivity|].
  cbn [String.length]. rewrite count_indices_shift.
  change (count_indices (String.length r)
            (fun i => comparable_at true (String a r) (String a r) (S i)))
    with (count_indices (String.length r) (comparable_at true r r)).
  rewrite IH. cbn [count_gaps].
  change (comparable_at true (String a r) (String a r) 0)
    with (negb (true && (Ascii.eqb a "-" || Ascii.eqb a "-"))).
  destruct (Ascii.eqb a "-"); cbn [andb orb negb]; lia.
Qed.

Lemma rate_of_bounds (m c : Z) :
  (0 <= m <= c)%Z -> (0 <= rate_of m c <= 1)%Q.
Proof.
  intros Hmc. unfold rate_of.
  destruct (Z.ltb_spec 0 c) as [Hpos|_]; [|split; discriminate].
  now apply true_div_bounds.
Qed.

Lemma rate_of_zero (m : Z) : rate_of m 0 = 0%Q.
Proof. reflexivity. Qed.

Lemma rate_of_no_mutation (c : Z) : (rate_of 0 c == 0)%Q.
Proof.
  unfold rate_of. destruct (Z.ltb_spec 0 c) as [Hpos|_]; [|reflexivity].
  now apply true_div_zero.
Qed.

(** The result in terms of the loop, for inputs of equal length. *)
Lemma compute_run_loop r t flag :
  String.length r = String.length t ->
  compute_mutation_rate r t flag
  = Ok ((run_loop flag r t (0%Z, 0%Z)).1, (run_loop flag r t (0%Z, 0%Z)).2,
        rate_of (run_loop flag r t (0%Z, 0%Z)).1 (run_loop flag r t (0%Z, 0%Z)).2).
Proof.
  intros Hlen. unfold compute_mutation_rate.
  rewrite Hlen, Nat.eqb_refl. cbn [negb].
  destruct (run_loop flag r t (0%Z, 0%Z)) as [m c]. reflexivity.
Qed.

End CalculatorFacts.

Section CalculatorClaims.

Import Spec Mutation.

(** C1.  For equal-length strings [r] and [t] over the alphabet A, C, G, T, -
    and [exclude_gaps = False], [compute_mutation_rate] returns as mutation
    count the number of indices [i] with [r[i] != t[i]] and as
    comparable-position count [len(r)]. *)
Theorem C1_counts_keeping_gaps (r t : string) :
  over_alphabet r = true -> over_alphabet t = true ->
  String.length r = String.length t ->
  exists rate : Q,
    compute_mutation_rate r t false
    = Ok (count_indices (String.length r) (mismatch_at r t),
          Z.of_nat (String.length r), rate).
Proof.
  intros _ _ Hlen. rewrite (compute_equal_length r t false Hlen).
  rewrite (count_indices_ext _ (counted_mutation false r t) (mismatch_at r t)).
  - rewrite (count_indices_all _ (comparable_at false r t)).
    + eexists. reflexivity.
    + intros i Hi. now apply comparable_at_keep_gaps.
  - intros i Hi. unfold counted_mutation.
    now rewrite comparable_at_keep_gaps.
Qed.

Lemma C1_counts_keeping_gaps_witness :
  exists rate : Q,
    compute_mutation_rate "AC-TG" "AG-T-" false
    = Ok (count_indices 5 (mismatch_at "AC-TG" "AG-T-"), 5%Z, rate).
Proof.
  apply (C1_counts_keeping_gaps "AC-TG" "AG-T-"); reflexivity.
Defined.

(** C2.  For equal-length strings [r] and [t] over the alphabet A, C, G, T, -
    and [exclude_gaps = True], the comparable-position count is the number of
    indices [i] with [r[i] != '-'] and [t[i] != '-'], and the mutation count is
    the number of those indices at which moreover [r[i] != t[i]]. *)
Theorem C2_counts_excluding_gaps (r t : string) :
  over_alphabet r = true -> over_alphabet t = true ->
  String.length r = String.length t ->
  exists rate : Q,
    compute_mutation_rate r t true
    = Ok (count_indices (String.length r)
            (fun i => both_non_gap_at r t i && mismatch_at r t i),
          count_indices (String.length r) (both_non_gap_at r t), rate).
Proof.
  intros _ _ Hlen. rewrite (compute_equal_length r t true Hlen).
  rewrite (count_indices_ext _ (counted_mutation true r t)
             (fun i => both_non_gap_at r t i && mismatch_at r t i)).
  - rewrite (count_indices_ext _ (comparable_at true r t) (both_non_gap_at r t)).
    + eexists. reflexivity.
    + intros i _. apply comparable_at_exclude_gaps.
  - intros i _. unfold counted_mutation.
    now rewrite comparable_at_exclude_gaps.
Qed.

Lemma C2_counts_excluding_gaps_witness :
  exists rate : Q,
    compute_mutation_rate "AC-TG" "AG-T-" true
    = Ok (count_indices 5
            (fun i => both_non_gap_at "AC-TG" "AG-T-" i
                      && mismatch_at "AC-TG" "AG-T-" i),
          count_indices 5 (both_non_gap_at "AC-TG" "AG-T-"), rate).
Proof.
  apply (C2_counts_excluding_gaps "AC-TG" "AG-T-"); reflexivity.
Defined.

(** C3.  For equal-length strings and either flag value, the returned rate is
    the quotient of the mutation count by the comparable-position count in
    true division when the latter count is positive: not the quotient
    truncated to an integer, but the binary64 number nearest to the exact
    quotient.  It is the float zero when the count is zero. *)
Theorem C3_rate_is_true_division (r t : string) (flag : bool) :
  String.length r = String.length t ->
  exists (mutations comparable : Z) (rate : Q),
    compute_mutation_rate r t flag = Ok (mutations, comparable, rate) /\
    (0 <= comparable)%Z /\
    ((0 < comparable)%Z ->
       rate = true_div mutations comparable /\
       binary64 rate /\
       forall x : Q, binary64 x ->
         (Qabs (rate - inject_Z mutations / inject_Z comparable)
          <= Qabs (x - inject_Z mutations / inject_Z comparable))%Q) /\
    (comparable = 0%Z -> rate = 0%Q).
Proof.
  intros Hlen. rewrite (compute_equal_length r t flag Hlen).
  set (m := count_indices (String.length r) (counted_mutation flag r t)).
  set (c := count_indices (String.length r) (comparable_at flag r t)).
  assert (0 <= m <= c)%Z as Hmc.
  { split; [apply count_indices_bounds|].
    apply count_indices_le. intros i _ H.
    unfold counted_mutation in H. now apply andb_true_iff in H. }
  exists m, c, (rate_of m c). split; [reflexivity|].
  split; [lia|]. split.
  - intros Hpos.
    assert (rate_of m c = true_div m c) as ->.
    { unfold rate_of. destruct (Z.ltb_spec 0 c); [reflexivity | lia]. }
    split; [reflexivity|]. split; [now apply true_div_binary64|].
    intros x Hx. now apply true_div_nearest.
  - intros ->. apply rate_of_zero.
Qed.

Lemma C3_rate_is_true_division_witness :
  compute_mutation_rate "---" "---" true = Ok (0%Z, 0%Z, 0%Q).
Proof.
  destruct (C3_rate_is_true_division "---" "---" true eq_refl)
    as (m & c & rate & Heq & _ & _ & Hzero).
  injection Heq as <- <- <-. reflexivity.
Defined.

(** C4, as amended.  For strings of different lengths and either flag value,
    [compute_mutation_rate] raises [ValueError] with the message
    "Aligned sequences must be of equal length" and returns no triple; the
    check comes first, so no counter has been computed. *)
Theorem C4_unequal_length_raises (r t : string) (flag : bool) :
  String.length r <> String.length t ->
  compute_mutation_rate r t flag
  = Raise (ValueError "Aligned sequences must be of equal length")
  /\ forall triple : Z * Z * Q, compute_mutation_rate r t flag <> Ok triple.
Proof.
  intros Hlen. apply Nat.eqb_neq in Hlen.
  unfold compute_mutation_rate. rewrite Hlen. cbn [negb].
  split; [reflexivity | discriminate].
Qed.

Lemma C4_unequal_length_raises_witness :
  compute_mutation_rate "ACGT" "ACG" true
  = Raise (ValueError "Aligned sequences must be of equal length")
  /\ forall triple : Z * Z * Q,
       compute_mutation_rate "ACGT" "ACG" true <> Ok triple.
Proof.
  apply (C4_unequal_length_raises "ACGT" "ACG" true). cbn. lia.
Defined.

(** C4, as stated, fails: the message raised on inputs of different lengths is
    not "sequences must be of equal length". *)
Lemma C4_message_counterexample :
  String.length "ACGT" <> String.length "ACG" /\
  compute_mutation_rate "ACGT" "ACG" false
  <> Raise (ValueError "sequences must be of equal length").
Proof. split; [cbn; lia | discriminate]. Qed.

(** C6.  Comparing a string with itself gives no mutation, whatever the flag;
    the comparable-position count is the length less the number of gap
    characters of the string with [exclude_gaps = True], and the length with
    [exclude_gaps = False]. *)
Theorem C6_self_comparison (r : string) (flag : bool) :
  exists rate : Q,
    compute_mutation_rate r r flag
    = Ok (0%Z,
          if flag then (Z.of_nat (String.length r) - count_gaps r)%Z
          else Z.of_nat (String.length r),
          rate)
    /\ (rate == 0)%Q.
Proof.
  rewrite (compute_equal_length r r flag eq_refl).
  rewrite (count_indices_none _ (counted_mutation flag r r)).
  2:{ intros i _. unfold counted_mutation.
      rewrite mismatch_at_self. apply andb_false_r. }
  destruct flag.
  - rewrite count_comparable_self.
    eexists. split; [reflexivity | apply rate_of_no_mutation].
  - rewrite (count_indices_all _ (comparable_at false r r)).
    + eexists. split; [reflexivity | apply rate_of_no_mutation].
    + intros i Hi. now apply comparable_at_keep_gaps.
Qed.

(** C8.  For equal-length strings and either flag value the returned triple
    has a non-negative mutation count, a comparable-position count between 0
    and [len(reference)], no more mutations than comparable positions, and a
    rate between 0 and 1, which is 0 when there is no comparable position. *)
Theorem C8_result_bounds (r t : string) (flag : bool) :
  String.length r = String.length t ->
  exists (mutations comparable : Z) (rate : Q),
    compute_mutation_rate r t flag = Ok (mutations, comparable, rate) /\
    (0 <= mutations)%Z /\
    (0 <= comparable <= Z.of_nat (String.length r))%Z /\
    (mutations <= comparable)%Z /\
    (0 <= rate <= 1)%Q /\
    (comparable = 0%Z -> rate = 0%Q).
Proof.
  intros Hlen. rewrite (compute_equal_length r t flag Hlen).
  assert (count_indices (String.length r) (counted_mutation flag r t)
          <= count_indices (String.length r) (comparable_at flag r t))%Z as Hle.
  { apply count_indices_le. intros i _ H.
    unfold counted_mutation in H. now apply andb_true_iff in H. }
  pose proof (count_indices_bounds (String.length r) (counted_mutation flag r t)) as Hm.
  pose proof (count_indices_bounds (String.length r) (comparable_at flag r t)) as Hc.
  eexists _, _, _. split; [reflexivity|].
  repeat split; try lia.
  - apply rate_of_bounds. lia.
  - apply rate_of_bounds. lia.
  - intros ->. apply rate_of_zero.
Qed.

Lemma C8_result_bounds_witness :
  exists (mutations comparable : Z) (rate : Q),
    compute_mutation_rate "AC-T" "AG-T" true = Ok (mutations, comparable, rate) /\
    (0 <= mutations)%Z /\
    (0 <= comparable <= 4)%Z /\
    (mutations <= comparable)%Z /\
    (0 <= rate <= 1)%Q /\
    (comparable = 0%Z -> rate = 0%Q).
Proof.
  apply (C8_result_bounds "AC-T" "AG-T" true). reflexivity.
Defined.

End CalculatorClaims.

Section LiteralComparison.

Import Spec Mutation.

Lemma position_delta_kept flag a b :
  flag && (Ascii.eqb a "-" || Ascii.eqb b "-") = false ->
  position_delta flag a b = ((if Ascii.ascii_dec a b then 0 else 1)%Z, 1%Z).
Proof. intros H. unfold position_delta. now rewrite H. Qed.

(** The loop over [pre ++ [x] ++ suf] in terms of the loops over [pre] and
    over [suf], each started from zero. *)
Lemma run_loop_position flag pre_r pre_t suf_r suf_t a b :
  String.length pre_r = String.length pre_t ->
  run_loop flag (pre_r +:+ String a suf_r) (pre_t +:+ String b suf_t) (0%Z, 0%Z)
  = (((run_loop flag pre_r pre_t (0%Z, 0%Z)).1 + (position_delta flag a b).1
      + (run_loop flag suf_r suf_t (0%Z, 0%Z)).1)%Z,
     ((run_loop flag pre_r pre_t (0%Z, 0%Z)).2 + (position_delta flag a b).2
      + (run_loop flag suf_r suf_t (0%Z, 0%Z)).2)%Z).
Proof.
  intros Hpre. rewrite (run_loop_app flag pre_r pre_t _ _ _ Hpre).
  rewrite run_loop_cons, run_loop_shift, loop_body_delta. reflexivity.
Qed.

(** C9.  The comparison of a position is the literal inequality of its two
    characters: at a position the gap rule does not skip, the mutation count
    grows by one exactly when the two characters differ, with no case folding
    and no special treatment of the gap character.  In particular a lower-case
    letter against its upper-case form, and with [exclude_gaps = False] a gap
    against a residue, each count as one mutation. *)
Theorem C9_literal_character_test (flag : bool)
    (pre_r pre_t suf_r suf_t : string) (a b : ascii) :
  String.length pre_r = String.length pre_t ->
  String.length suf_r = String.length suf_t ->
  flag && (Ascii.eqb a "-" || Ascii.eqb b "-") = false ->
  exists (m1 c1 : Z) (q1 : Q) (m2 c2 : Z) (q2 q : Q),
    compute_mutation_rate pre_r pre_t flag = Ok (m1, c1, q1) /\
    compute_mutation_rate suf_r suf_t flag = Ok (m2, c2, q2) /\
    compute_mutation_rate (pre_r +:+ String a suf_r) (pre_t +:+ String b suf_t) flag
    = Ok ((m1 + (if Ascii.ascii_dec a b then 0 else 1) + m2)%Z,
          (c1 + 1 + c2)%Z, q).
Proof.
  intros Hpre Hsuf Hkept.
  rewrite (compute_run_loop pre_r pre_t flag Hpre).
  rewrite (compute_run_loop suf_r suf_t flag Hsuf).
  rewrite compute_run_loop.
  2:{ rewrite !string_length_app. cbn [String.length]. lia. }
  rewrite (run_loop_position flag _ _ _ _ a b Hpre).
  rewrite (position_delta_kept flag a b Hkept). cbn [fst snd].
  eexists _, _, _, _, _, _, _. repeat split; reflexivity.
Qed.

Lemma C9_literal_character_test_witness :
  exists (m1 c1 : Z) (q1 : Q) (m2 c2 : Z) (q2 q : Q),
    compute_mutation_rate "AC" "AC" false = Ok (m1, c1, q1) /\
    compute_mutation_rate "GT" "G-" false = Ok (m2, c2, q2) /\
    compute_mutation_rate ("AC" +:+ String "a" "GT") ("AC" +:+ String "A" "G-") false
    = Ok ((m1 + (if Ascii.ascii_dec "a" "A" then 0 else 1) + m2)%Z,
          (c1 + 1 + c2)%Z, q).
Proof.
  apply (C9_literal_character_test false "AC" "AC" "GT" "G-" "a" "A");
    reflexivity.
Defined.

Example case_is_not_folded (flag : bool) :
  compute_mutation_rate "acgt" "ACGT" flag = Ok (4%Z, 4%Z, 1%Q).
Proof. destruct flag; reflexivity. Qed.

Example gap_against_residue_keeping_gaps :
  compute_mutation_rate "ACGT" "AC-T" false = Ok (1%Z, 4%Z, (1 # 4)%Q).
Proof. reflexivity. Qed.

Example gap_against_residue_excluding_gaps :
  compute_mutation_rate "ACGT" "AC-T" true = Ok (0%Z, 3%Z, 0%Q).
Proof. reflexivity. Qed.

Example end_to_end_keeping_gaps :
  compute_mutation_rate "ACGT" "AGGT" false = Ok (1%Z, 4%Z, (1 # 4)%Q).
Proof. reflexivity. Qed.

(** One third is no binary64 number: the rate is the nearest one. *)
Example end_to_end_excluding_gaps :
  compute_mutation_rate "AC-T" "AG-T" true
  = Ok (1%Z, 3%Z, (6004799503160661 # 18014398509481984)%Q).
Proof. vm_compute. reflexivity. Qed.

(** The rounding shows: one mutation in 49 positions gives a rate that, taken
    49 times, is not 1. *)
Example rate_is_rounded :
  rate_of 1 49 = (5882252574524729 # 288230376151711744)%Q /\
  ~ (rate_of 1 49 * 49 == 1)%Q.
Proof. split; [vm_compute; reflexivity | vm_compute; discriminate]. Qed.

(** Below the normal range the quotient is rounded on the grid of the
    subnormal numbers, and to zero below half of the smallest of them. *)
Example rate_gradual_underflow :
  (rate_of 3 (2 ^ 1075) == 1 / inject_Z (2 ^ 1073))%Q /\
  rate_of 1 (2 ^ 1075) = 0%Q.
Proof. split; vm_compute; reflexivity. Qed.

(** A quotient half way between two binary64 numbers goes to the one of even
    significand. *)
Example rate_ties_to_even :
  rate_of (2 ^ 53 + 1) (2 ^ 54) = (1 # 2)%Q /\
  rate_of (2 ^ 53 + 3) (2 ^ 54) = (2251799813685249 # 4503599627370496)%Q.
Proof. split; vm_compute; reflexivity. Qed.

End LiteralComparison.

(** * Properties of the loader *)

Section Loader.

Import Spec Fasta.

Lemma run_lines_app l1 l2 st :
  run_lines (l1 ++ l2) st = run_lines l2 (run_lines l1 st).
Proof. apply fold_left_app. Qed.

Lemma run_lines_cons raw lines st :
  run_lines (raw :: lines) st = run_lines lines (step st raw).
Proof. reflexivity. Qed.

Lemma truthy_nonempty (s : string) : truthy s = true <-> s <> EmptyString.
Proof. destruct s; cbn; split; congruence. Qed.

Lemma header_truthy raw : is_header raw = true -> truthy (strip raw) = true.
Proof.
  unfold is_header, startswith.
  destruct (strip raw); [discriminate | reflexivity].
Qed.

Lemma step_header st raw :
  is_header raw = true ->
  step st raw
  = {| seqs := flush st; current_id := header_id raw; chunks := [] |}.
Proof.
  intros H. unfold step. rewrite (header_truthy _ H). cbn [negb].
  unfold is_header in H. rewrite H. reflexivity.
Qed.

Lemma step_blank st raw : truthy (strip raw) = false -> step st raw = st.
Proof. intros H. unfold step. now rewrite H. Qed.

Lemma step_content st raw :
  is_header raw = false -> truthy (strip raw) = true ->
  step st raw
  = {| seqs := seqs st; current_id := current_id st;
       chunks := chunks st ++ [strip raw] |}.
Proof.
  intros Hh Ht. unfold step. rewrite Ht. cbn [negb].
  unfold is_header in Hh. now rewrite Hh.
Qed.

(** The lines of a record body only grow [chunks]. *)
Lemma run_lines_body body : forall st,
  no_header body = true ->
  run_lines body st
  = {| seqs := seqs st; current_id := current_id st;
       chunks := chunks st ++ content_lines body |}.
Proof.
  induction body as [|raw body IH]; intros st Hb.
  - cbn. rewrite app_nil_r. now destruct st.
  - cbn [no_header forallb] in Hb. apply andb_true_iff in Hb as [Hraw Hb].
    apply negb_true_iff in Hraw. rewrite run_lines_cons.
    unfold content_lines. cbn [map List.filter].
    destruct (truthy (strip raw)) eqn:Ht.
    + rewrite (step_content st raw Hraw Ht), (IH _ Hb). cbn [seqs current_id chunks].
      now rewrite <- app_assoc.
    + rewrite (step_blank st raw Ht). apply (IH _ Hb).
Qed.

(** A flush does not touch the identifiers other than the current one. *)
Lemma flush_lookup_other st id :
  current_id st <> id -> flush st !! id = seqs st !! id.
Proof.
  intros Hne. unfold flush. destruct (truthy (current_id st)); [|reflexivity].
  now apply lookup_insert_ne.
Qed.

Lemma flush_lookup_current (m : gmap string string) id cs :
  truthy id = true ->
  flush {| seqs := m; current_id := id; chunks := cs |} !! id
  = Some (upper (join cs)).
Proof.
  intros H. unfold flush. cbn [seqs current_id chunks].
  rewrite H. apply lookup_insert_eq.
Qed.

(** Lines holding no header for [id] leave the entry of [id] as it is. *)
Lemma lookup_preserved id lines : forall st,
  id_absent id lines = true -> current_id st <> id ->
  flush (run_lines lines st) !! id = seqs st !! id.
Proof.
  induction lines as [|raw lines IH]; intros st Ha Hcur.
  - now apply flush_lookup_other.
  - cbn [id_absent forallb] in Ha. apply andb_true_iff in Ha as [Hraw Ha].
    apply negb_true_iff in Hraw. rewrite run_lines_cons.
    destruct (truthy (strip raw)) eqn:Ht.
    2:{ rewrite (step_blank st raw Ht). now apply IH. }
    destruct (is_header raw) eqn:Hh.
    + rewrite (step_header st raw Hh), IH; cbn [seqs current_id]; trivial.
      * now apply flush_lookup_other.
      * cbn [andb] in Hraw. now apply String.eqb_neq in Hraw.
    + rewrite (step_content st raw Hh Ht), IH; trivial.
Qed.

(** The state after a whole record: header and body. *)
Lemma run_lines_record hdr body st :
  is_header hdr = true -> no_header body = true ->
  run_lines (hdr :: body) st
  = {| seqs := flush st; current_id := header_id hdr;
       chunks := content_lines body |}.
Proof.
  intros Hh Hb. rewrite run_lines_cons, (step_header st hdr Hh).
  now rewrite (run_lines_body body _ Hb).
Qed.

(** The last record of an identifier decides its entry. *)
Lemma last_record_wins pre hdr body rest :
  is_header hdr = true -> truthy (header_id hdr) = true ->
  no_header body = true -> starts_record rest = true ->
  id_absent (header_id hdr) rest = true ->
  parse_lines (pre ++ hdr :: body ++ rest) !! header_id hdr
  = Some (record_content body).
Proof.
  intros Hh Hid Hb Hrest Habs. unfold parse_lines.
  rewrite run_lines_app.
  change (hdr :: body ++ rest)%list with ((hdr :: body) ++ rest)%list.
  rewrite run_lines_app, (run_lines_record hdr body _ Hh Hb).
  destruct rest as [|h rest].
  - cbn [run_lines fold_left]. now apply flush_lookup_current.
  - cbn [starts_record] in Hrest.
    cbn [id_absent forallb] in Habs. apply andb_true_iff in Habs as [Hraw Habs].
    rewrite Hrest in Hraw. cbn [andb] in Hraw.
    apply negb_true_iff, String.eqb_neq in Hraw.
    rewrite run_lines_cons, (step_header _ h Hrest).
    rewrite lookup_preserved; cbn [seqs current_id]; trivial.
    now apply flush_lookup_current.
Qed.

Lemma flush_keys_nonempty st :
  keys_nonempty (seqs st) -> keys_nonempty (flush st).
Proof.
  intros Hinv id Hsome. unfold flush in Hsome.
  destruct (truthy (current_id st)) eqn:Ht; [|now apply Hinv].
  destruct (String.eqb_spec (current_id st) id) as [<-|Hne].
  - now apply truthy_nonempty.
  - rewrite lookup_insert_ne in Hsome by exact Hne. now apply Hinv.
Qed.

Lemma step_keys_nonempty st raw :
  keys_nonempty (seqs st) -> keys_nonempty (seqs (step st raw)).
Proof.
  intros Hinv. unfold step.
  destruct (negb (truthy (strip raw))); [exact Hinv|].
  destruct (startswith (strip raw) ">"); [|exact Hinv].
  now apply flush_keys_nonempty.
Qed.

Lemma run_lines_keys_nonempty lines : forall st,
  keys_nonempty (seqs st) -> keys_nonempty (seqs (run_lines lines st)).
Proof.
  induction lines as [|raw lines IH]; intros st Hinv; [exact Hinv|].
  rewrite run_lines_cons. now apply IH, step_keys_nonempty.
Qed.

Lemma parse_lines_keys_nonempty lines : keys_nonempty (parse_lines lines).
Proof.
  apply flush_keys_nonempty, run_lines_keys_nonempty.
  intros id [v Hv]. cbn in Hv. now rewrite lookup_empty in Hv.
Qed.

(** A record whose identifier is empty leaves the collection as it was. *)
Lemma anonymous_record_state hdr body st :
  is_header hdr = true -> header_id hdr = EmptyString -> no_header body = true ->
  run_lines (hdr :: body) st
  = {| seqs := flush st; current_id := EmptyString; chunks := content_lines body |}.
Proof. intros Hh Hid Hb. now rewrite (run_lines_record hdr body st Hh Hb), Hid. Qed.

Lemma anonymous_record_dropped pre hdr body rest :
  is_header hdr = true -> header_id hdr = EmptyString ->
  no_header body = true -> starts_record rest = true ->
  parse_lines (pre ++ hdr :: body ++ rest) = parse_lines (pre ++ rest).
Proof.
  intros Hh Hid Hb Hrest. unfold parse_lines.
  rewrite !run_lines_app.
  change (hdr :: body ++ rest)%list with ((hdr :: body) ++ rest)%list.
  rewrite run_lines_app, (anonymous_record_state hdr body _ Hh Hid Hb).
  destruct rest as [|h rest]; [reflexivity|].
  cbn [starts_record] in Hrest.
  now rewrite !run_lines_cons, !(step_header _ h Hrest).
Qed.

End Loader.

Section LoaderClaims.

Import Spec Fasta.

(** C5, as amended.  The loader parses the one-record text
    [">A\nACGT\nAC\n"] to the collection [{"A": "ACGTAC"}], and the text
    [">seq1\nACGT\n-A\n>seq2\nAAAA"] to
    [{"seq1": "ACGT-A", "seq2": "AAAA"}]: the content lines of a record are
    concatenated in order, without their line breaks, in upper case. *)
Theorem C5_loader_examples :
  read_fasta single_record_input = {[ "A" := "ACGTAC" ]} /\
  read_fasta two_record_input = {[ "seq1" := "ACGT-A"; "seq2" := "AAAA" ]}.
Proof. split; vm_compute; reflexivity. Qed.

(** C5, as stated, fails on its first example: the content of record [A] is
    ["ACGTAC"], the two content lines one after the other, not ["ACGGAC"]. *)
Lemma C5_single_record_counterexample :
  read_fasta single_record_input <> {[ "A" := "ACGGAC" ]}.
Proof.
  intros H. apply (f_equal (fun m : gmap string string => m !! "A")) in H.
  vm_compute in H. discriminate H.
Qed.

(** C7, as amended.  When the lines of the input hold several records whose
    headers trim to the same non-empty identifier, the collection maps that
    identifier to the content of the last of them alone: [hdr] is the last
    header with the identifier (none follows in [rest]), [body] is the whole
    body of its record, and an earlier record with the same identifier lies in
    [pre]. *)
Theorem C7_last_duplicate_wins (content : string)
    (pre : list string) (hdr : string) (body rest : list string) :
  readlines content = (pre ++ hdr :: body ++ rest)%list ->
  is_header hdr = true ->
  truthy (header_id hdr) = true ->
  id_present (header_id hdr) pre = true ->
  no_header body = true ->
  starts_record rest = true ->
  id_absent (header_id hdr) rest = true ->
  read_fasta content !! header_id hdr = Some (record_content body).
Proof.
  intros Hlines Hh Hid _ Hb Hrest Habs. unfold read_fasta.
  rewrite Hlines. now apply last_record_wins.
Qed.

Lemma C7_last_duplicate_wins_witness :
  read_fasta duplicate_input !! "X" = Some "CCGG".
Proof.
  exact (C7_last_duplicate_wins duplicate_input
           [line ">X"; line "aaaa"] (line "> X ")
           [line "cc"; line EmptyString; line "gg"] [line ">Y"; line "tttt"]
           eq_refl eq_refl eq_refl eq_refl eq_refl eq_refl eq_refl).
Defined.

(** C7, as stated, fails for the empty identifier: two records under a header
    holding the marker alone share the identifier they trim to, and the
    collection has no entry for it. *)
Lemma C7_empty_identifier_counterexample :
  readlines anonymous_duplicate_input
  = ([line ">"; line "AA"] ++ line ">" :: [line "CC"] ++ [])%list /\
  is_header (line ">") = true /\
  id_present (header_id (line ">")) [line ">"; line "AA"] = true /\
  no_header [line "CC"] = true /\
  starts_record [] = true /\
  id_absent (header_id (line ">")) [] = true /\
  read_fasta anonymous_duplicate_input !! header_id (line ">")
  <> Some (record_content [line "CC"]).
Proof. repeat split. vm_compute. discriminate. Qed.

(** C10.  Every key of the collection [read_fasta] returns is a non-empty
    string.  A record whose header gives the empty identifier (a line holding
    the marker alone, say) is dropped without notice: its content lines are
    gathered in [chunks], the collection holds what it held before the record,
    and the result is that of the input without the record. *)
Theorem C10_keys_nonempty (content : string) :
  (forall id, is_Some (read_fasta content !! id) -> id <> EmptyString) /\
  (forall (pre : list string) (hdr : string) (body rest : list string),
     readlines content = (pre ++ hdr :: body ++ rest)%list ->
     is_header hdr = true ->
     header_id hdr = EmptyString ->
     no_header body = true ->
     starts_record rest = true ->
     chunks (run_lines (pre ++ hdr :: body) initial) = content_lines body /\
     seqs (run_lines (pre ++ hdr :: body) initial) = parse_lines pre /\
     read_fasta content = parse_lines (pre ++ rest)).
Proof.
  split; [apply parse_lines_keys_nonempty|].
  intros pre hdr body rest Hlines Hh Hid Hb Hrest.
  rewrite run_lines_app, (anonymous_record_state hdr body _ Hh Hid Hb).
  cbn [chunks seqs]. repeat split.
  unfold read_fasta. rewrite Hlines. now apply anonymous_record_dropped.
Qed.

Lemma C10_keys_nonempty_witness :
  "A" <> EmptyString /\
  chunks (run_lines [line ">A"; line "AC"; line ">"; line "GT"] initial) = ["GT"] /\
  read_fasta anonymous_input = {[ "A" := "AC"; "B" := "AA" ]}.
Proof.
  destruct (C10_keys_nonempty anonymous_input) as [Hkeys Hdrop].
  split.
  - apply Hkeys. exists "AC". vm_compute. reflexivity.
  - destruct (Hdrop [line ">A"; line "AC"] (line ">") [line "GT"]
                [line ">B"; "AA"] eq_refl eq_refl eq_refl eq_refl eq_refl)
      as (Hchunks & _ & Hresult).
    split; [exact Hchunks|]. rewrite Hresult. vm_compute. reflexivity.
Defined.

Example marker_alone_is_anonymous :
  is_header (line ">") = true /\ header_id (line ">") = EmptyString.
Proof. split; reflexivity. Qed.

Example content_before_first_header_is_dropped :
  read_fasta (line "ACGT" +:+ line ">A" +:+ line "GG") = {[ "A" := "GG" ]}.
Proof. vm_compute. reflexivity. Qed.

Example carriage_returns_end_lines :
  readlines (">A" +:+ String CR nl +:+ "AC" +:+ String CR "GT")
  = [line ">A"; line "AC"; "GT"].
Proof. reflexivity. Qed.

End LoaderClaims.

(** * Further properties of the calculator *)

Section CalculatorAlgebra.

Import Spec Notions Mutation.

Lemma count_indices_zero (n : nat) (P : nat -> bool) :
  count_indices n P = 0%Z -> forall i, (i < n)%nat -> P i = false.
Proof.
  induction n as [|n IH]; intros H i Hi; [lia|].
  cbn [count_indices] in H.
  pose proof (count_indices_bounds n P) as Hb.
  destruct (P n) eqn:Hn; [lia|].
  destruct (Nat.eq_dec i n) as [->|Hne]; [exact Hn|].
  apply IH; lia.
Qed.

Lemma count_indices_cover (n : nat) (P Q R : nat -> bool) :
  (forall i, (i < n)%nat -> P i = true -> Q i = true \/ R i = true) ->
  (count_indices n P <= count_indices n Q + count_indices n R)%Z.
Proof.
  induction n as [|n IH]; intros H; [reflexivity|].
  cbn [count_indices].
  assert (count_indices n P <= count_indices n Q + count_indices n R)%Z as Hle.
  { apply IH. intros i Hi. apply H. lia. }
  specialize (H n (Nat.lt_succ_diag_r n)).
  destruct (P n), (Q n), (R n);
    first [lia | destruct (H eq_refl); discriminate].
Qed.

Lemma count_indices_split (n : nat) (P Q R : nat -> bool) :
  (forall i, (i < n)%nat -> P i = Q i || R i) ->
  (forall i, (i < n)%nat -> Q i && R i = false) ->
  count_indices n P = (count_indices n Q + count_indices n R)%Z.
Proof.
  induction n as [|n IH]; intros H1 H2; [reflexivity|].
  cbn [count_indices]. rewrite IH.
  - specialize (H1 n (Nat.lt_succ_diag_r n)).
    specialize (H2 n (Nat.lt_succ_diag_r n)).
    destruct (P n), (Q n), (R n); cbn in *; try discriminate; lia.
  - intros i Hi. apply H1. lia.
  - intros i Hi. apply H2. lia.
Qed.

Lemma get_beyond (s : string) : forall i,
  (String.length s <= i)%nat -> String.get i s = None.
Proof.
  induction s as [|a s IH]; intros i Hi; [reflexivity|].
  destruct i as [|i]; cbn in *; [lia|]. apply IH. lia.
Qed.

Lemma mismatch_at_sym r t i : mismatch_at r t i = mismatch_at t r i.
Proof.
  unfold mismatch_at. destruct (String.get i r), (String.get i t); trivial.
  now rewrite Ascii.eqb_sym.
Qed.

Lemma comparable_at_sym flag r t i :
  comparable_at flag r t i = comparable_at flag t r i.
Proof.
  unfold comparable_at. destruct (String.get i r), (String.get i t); trivial.
  now rewrite orb_comm.
Qed.

(** The comparison is symmetric: exchanging reference and target changes
    nothing, neither the triple nor the error. *)
Theorem compute_mutation_rate_symmetric (r t : string) (flag : bool) :
  compute_mutation_rate r t flag = compute_mutation_rate t r flag.
Proof.
  destruct (Nat.eq_dec (String.length r) (String.length t)) as [Hlen|Hlen].
  - rewrite (compute_equal_length r t flag Hlen).
    rewrite (compute_equal_length t r flag (eq_sym Hlen)). rewrite <- Hlen.
    rewrite (count_indices_ext _ (counted_mutation flag t r) (counted_mutation flag r t)).
    + now rewrite (count_indices_ext _ (comparable_at flag t r) (comparable_at flag r t))
        by (intros; apply comparable_at_sym).
    + intros i _. unfold counted_mutation.
      now rewrite comparable_at_sym, mismatch_at_sym.
  - unfold compute_mutation_rate.
    assert (String.length t <> String.length r) as Hlen' by congruence.
    apply Nat.eqb_neq in Hlen, Hlen'. now rewrite Hlen, Hlen'.
Qed.

(** Without gap exclusion, two strings of equal length show no mutation
    exactly when they are the same string. *)
Theorem no_mutation_iff_equal (r t : string) :
  String.length r = String.length t ->
  (exists (comparable : Z) (rate : Q),
     compute_mutation_rate r t false = Ok (0%Z, comparable, rate))
  <-> r = t.
Proof.
  intros Hlen. split.
  - intros (c & q & H). rewrite (compute_equal_length r t false Hlen) in H.
    injection H as Hm _ _.
    apply String.get_correct. intros i.
    destruct (Nat.lt_ge_cases i (String.length r)) as [Hi|Hi].
    + pose proof (count_indices_zero _ _ Hm i Hi) as Hz.
      unfold counted_mutation in Hz.
      rewrite (comparable_at_keep_gaps r t i Hlen Hi) in Hz.
      cbn [andb] in Hz. unfold mismatch_at in Hz.
      destruct (get_within r i Hi) as [a Ha].
      destruct (get_within t i ltac:(lia)) as [b Hb].
      rewrite Ha, Hb in *. apply negb_false_iff, Ascii.eqb_eq in Hz.
      now subst.
    + rewrite (get_beyond r i Hi), (get_beyond t i); [reflexivity | lia].
  - intros <-. rewrite (compute_equal_length r r false eq_refl).
    rewrite (count_indices_none _ (counted_mutation false r r)); [eauto|].
    intros i _. unfold counted_mutation.
    rewrite mismatch_at_self. apply andb_false_r.
Qed.

End CalculatorAlgebra.

Section CalculatorOrder.

Import Spec Notions Mutation.

(** Without gap exclusion the mutation count is a distance: it obeys the
    triangle inequality over three strings of one length. *)
Theorem mutations_triangle (r t u : string) :
  String.length r = String.length t ->
  String.length t = String.length u ->
  exists (m_rt c_rt : Z) (q_rt : Q) (m_tu c_tu : Z) (q_tu : Q)
         (m_ru c_ru : Z) (q_ru : Q),
    compute_mutation_rate r t false = Ok (m_rt, c_rt, q_rt) /\
    compute_mutation_rate t u false = Ok (m_tu, c_tu, q_tu) /\
    compute_mutation_rate r u false = Ok (m_ru, c_ru, q_ru) /\
    (m_ru <= m_rt + m_tu)%Z.
Proof.
  intros Hrt Htu.
  rewrite (compute_equal_length r t false Hrt).
  rewrite (compute_equal_length t u false Htu).
  rewrite (compute_equal_length r u false (eq_trans Hrt Htu)).
  eexists _, _, _, _, _, _, _, _, _.
  split; [reflexivity|]. split; [reflexivity|]. split; [reflexivity|].
  rewrite <- Hrt. apply count_indices_cover. intros i Hi H.
  unfold counted_mutation in *.
  rewrite (comparable_at_keep_gaps r u i) in H by congruence.
  rewrite (comparable_at_keep_gaps r t i Hrt Hi).
  rewrite (comparable_at_keep_gaps t u i Htu) by lia.
  cbn [andb] in *. unfold mismatch_at in *.
  destruct (get_within r i Hi) as [a Ha].
  destruct (get_within t i ltac:(lia)) as [b Hb].
  destruct (get_within u i ltac:(lia)) as [c Hc].
  rewrite Ha, Hb, Hc in *.
  destruct (Ascii.eqb_spec a b) as [->|_]; [right; exact H | left; reflexivity].
Qed.

Lemma mutations_triangle_witness :
  exists (m_rt c_rt : Z) (q_rt : Q) (m_tu c_tu : Z) (q_tu : Q)
         (m_ru c_ru : Z) (q_ru : Q),
    compute_mutation_rate "ACGT" "AC-T" false = Ok (m_rt, c_rt, q_rt) /\
    compute_mutation_rate "AC-T" "TCGA" false = Ok (m_tu, c_tu, q_tu) /\
    compute_mutation_rate "ACGT" "TCGA" false = Ok (m_ru, c_ru, q_ru) /\
    (m_ru <= m_rt + m_tu)%Z.
Proof.
  apply (mutations_triangle "ACGT" "AC-T" "TCGA"); reflexivity.
Defined.

(** Under gap exclusion the triangle inequality is lost: a target that is a
    gap hides the difference between its two neighbours. *)
Example triangle_fails_excluding_gaps :
  compute_mutation_rate "A" "-" true = Ok (0%Z, 0%Z, 0%Q) /\
  compute_mutation_rate "-" "C" true = Ok (0%Z, 0%Z, 0%Q) /\
  compute_mutation_rate "A" "C" true = Ok (1%Z, 1%Z, (1 # 1)%Q).
Proof. repeat split. Qed.

(** Excluding gaps only removes positions: both counts can only go down, the
    comparable positions go down by the number of positions holding a gap on
    either side, and the mutations by no more than that. *)
Theorem exclude_gaps_only_removes (r t : string) :
  String.length r = String.length t ->
  exists (m1 c1 : Z) (q1 : Q) (m0 c0 : Z) (q0 : Q),
    compute_mutation_rate r t true = Ok (m1, c1, q1) /\
    compute_mutation_rate r t false = Ok (m0, c0, q0) /\
    (m1 <= m0)%Z /\ (c1 <= c0)%Z /\
    (c0 - c1)%Z = count_indices (String.length r) (either_gap_at r t) /\
    (m0 - m1 <= c0 - c1)%Z.
Proof.
  intros Hlen.
  rewrite (compute_equal_length r t true Hlen).
  rewrite (compute_equal_length r t false Hlen).
  eexists _, _, _, _, _, _.
  split; [reflexivity|]. split; [reflexivity|].
  pose proof (count_indices_split (String.length r)
                (comparable_at false r t) (comparable_at true r t)
                (either_gap_at r t)) as Hc.
  pose proof (count_indices_split (String.length r)
                (counted_mutation false r t) (counted_mutation true r t)
                (fun i => either_gap_at r t i && mismatch_at r t i)) as Hm.
  pose proof (count_indices_le (String.length r)
                (fun i => either_gap_at r t i && mismatch_at r t i)
                (either_gap_at r t)) as Hg.
  pose proof (count_indices_bounds (String.length r)
                (fun i => either_gap_at r t i && mismatch_at r t i)) as Hb.
  pose proof (count_indices_bounds (String.length r) (either_gap_at r t)) as Hb'.
  rewrite Hc, Hm.
  - assert (count_indices (String.length r)
              (fun i => either_gap_at r t i && mismatch_at r t i)
            <= count_indices (String.length r) (either_gap_at r t))%Z.
    { apply Hg. intros i _ H. now apply andb_true_iff in H. }
    repeat split; lia.
  - intros i _. unfold counted_mutation, comparable_at, either_gap_at, mismatch_at.
    destruct (String.get i r) as [a|], (String.get i t) as [b|]; trivial.
    destruct (Ascii.eqb a "-" || Ascii.eqb b "-"), (negb (Ascii.eqb a b)); reflexivity.
  - intros i _. unfold counted_mutation, comparable_at, either_gap_at, mismatch_at.
    destruct (String.get i r) as [a|], (String.get i t) as [b|]; trivial.
    destruct (Ascii.eqb a "-" || Ascii.eqb b "-"), (negb (Ascii.eqb a b)); reflexivity.
  - intros i _. unfold comparable_at, either_gap_at.
    destruct (String.get i r) as [a|], (String.get i t) as [b|]; trivial.
    destruct (Ascii.eqb a "-" || Ascii.eqb b "-"); reflexivity.
  - intros i _. unfold comparable_at, either_gap_at.
    destruct (String.get i r) as [a|], (String.get i t) as [b|]; trivial.
    destruct (Ascii.eqb a "-" || Ascii.eqb b "-"); reflexivity.
Qed.

Lemma exclude_gaps_only_removes_witness :
  exists (m1 c1 : Z) (q1 : Q) (m0 c0 : Z) (q0 : Q),
    compute_mutation_rate "AC-TG" "AG-T-" true = Ok (m1, c1, q1) /\
    compute_mutation_rate "AC-TG" "AG-T-" false = Ok (m0, c0, q0) /\
    (m1 <= m0)%Z /\ (c1 <= c0)%Z /\
    (c0 - c1)%Z = count_indices 5 (either_gap_at "AC-TG" "AG-T-") /\
    (m0 - m1 <= c0 - c1)%Z.
Proof.
  apply (exclude_gaps_only_removes "AC-TG" "AG-T-"). reflexivity.
Defined.

Lemma gap_free_get (s : string) : forall i a,
  gap_free s = true -> String.get i s = Some a -> Ascii.eqb a "-" = false.
Proof.
  induction s as [|c s IH]; intros i a Hg Hget; [discriminate|].
  unfold gap_free in Hg. cbn [list_ascii_of_string forallb] in Hg.
  apply andb_true_iff in Hg as [Hc Hs].
  destruct i as [|i]; cbn [String.get] in Hget.
  - injection Hget as <-. now apply negb_true_iff.
  - now apply (IH i).
Qed.

(** On strings without gap character the flag makes no difference. *)
Theorem flag_irrelevant_without_gaps (r t : string) :
  gap_free r = true -> gap_free t = true ->
  compute_mutation_rate r t true = compute_mutation_rate r t false.
Proof.
  intros Hr Ht.
  destruct (Nat.eq_dec (String.length r) (String.length t)) as [Hlen|Hlen].
  - rewrite (compute_equal_length r t true Hlen).
    rewrite (compute_equal_length r t false Hlen).
    assert (forall i, comparable_at true r t i = comparable_at false r t i) as Hc.
    { intros i. unfold comparable_at.
      destruct (String.get i r) as [a|] eqn:Ha; trivial.
      destruct (String.get i t) as [b|] eqn:Hb; trivial.
      now rewrite (gap_free_get r i a Hr Ha), (gap_free_get t i b Ht Hb). }
    rewrite (count_indices_ext _ (counted_mutation true r t) (counted_mutation false r t))
      by (intros i _; unfold counted_mutation; now rewrite Hc).
    now rewrite (count_indices_ext _ (comparable_at true r t) (comparable_at false r t))
      by (intros i _; apply Hc).
  - unfold compute_mutation_rate. apply Nat.eqb_neq in Hlen. now rewrite Hlen.
Qed.

Lemma flag_irrelevant_without_gaps_witness :
  compute_mutation_rate "ACGT" "AGGA" true
  = compute_mutation_rate "ACGT" "AGGA" false.
Proof.
  apply (flag_irrelevant_without_gaps "ACGT" "AGGA"); reflexivity.
Defined.

(** The comparison of two concatenations of parts of matching lengths adds up
    the counts of the parts; the rate is that of the sums. *)
Theorem compute_mutation_rate_concat (r1 t1 r2 t2 : string) (flag : bool) :
  String.length r1 = String.length t1 ->
  String.length r2 = String.length t2 ->
  exists (m1 c1 : Z) (q1 : Q) (m2 c2 : Z) (q2 : Q),
    compute_mutation_rate r1 t1 flag = Ok (m1, c1, q1) /\
    compute_mutation_rate r2 t2 flag = Ok (m2, c2, q2) /\
    compute_mutation_rate (r1 +:+ r2) (t1 +:+ t2) flag
    = Ok ((m1 + m2)%Z, (c1 + c2)%Z, rate_of (m1 + m2) (c1 + c2)).
Proof.
  intros H1 H2.
  rewrite (compute_run_loop r1 t1 flag H1), (compute_run_loop r2 t2 flag H2).
  rewrite compute_run_loop by (rewrite !string_length_app; lia).
  rewrite (run_loop_app flag r1 t1 r2 t2 _ H1).
  rewrite (run_loop_shift flag r2 t2 (run_loop flag r1 t1 (0%Z, 0%Z))).
  cbn [fst snd]. eexists _, _, _, _, _, _. repeat split; reflexivity.
Qed.

Lemma compute_mutation_rate_concat_witness :
  exists (m1 c1 : Z) (q1 : Q) (m2 c2 : Z) (q2 : Q),
    compute_mutation_rate "AC-" "AG-" true = Ok (m1, c1, q1) /\
    compute_mutation_rate "TT" "TA" true = Ok (m2, c2, q2) /\
    compute_mutation_rate ("AC-" +:+ "TT") ("AG-" +:+ "TA") true
    = Ok ((m1 + m2)%Z, (c1 + c2)%Z, rate_of (m1 + m2) (c1 + c2)).
Proof.
  apply (compute_mutation_rate_concat "AC-" "AG-" "TT" "TA" true); reflexivity.
Defined.

(** For strings shorter than 2^53 the rate is 0 exactly when there is no
    mutation, and 1 exactly when every comparable position is a mutation and
    there is at least one: below that length the rounding of the quotient
    moves no rate onto 0 or 1. *)
Theorem rate_extremes (r t : string) (flag : bool) :
  String.length r = String.length t ->
  (Z.of_nat (String.length r) < 2 ^ 53)%Z ->
  exists (mutations comparable : Z) (rate : Q),
    compute_mutation_rate r t flag = Ok (mutations, comparable, rate) /\
    ((rate == 0)%Q <-> mutations = 0%Z) /\
    ((rate == 1)%Q <-> (mutations = comparable /\ 0 < comparable)%Z).
Proof.
  intros Hlen Hbound. rewrite (compute_equal_length r t flag Hlen).
  set (m := count_indices (String.length r) (counted_mutation flag r t)).
  set (c := count_indices (String.length r) (comparable_at flag r t)).
  assert (0 <= m <= c)%Z as Hmc.
  { split; [apply count_indices_bounds|].
    apply count_indices_le. intros i _ H.
    unfold counted_mutation in H. now apply andb_true_iff in H. }
  pose proof (count_indices_bounds (String.length r) (comparable_at flag r t))
    as Hc. fold c in Hc.
  eexists _, _, _. split; [reflexivity|].
  unfold rate_of. destruct (Z.ltb_spec 0 c) as [Hpos|Hle].
  - destruct (true_div_extremes m c Hmc Hpos ltac:(lia)) as [H0 H1].
    split; [exact H0|]. rewrite H1. split; [intros ->; split; [reflexivity | exact Hpos] | tauto].
  - assert (c = 0%Z) as Hc0 by lia. assert (m = 0%Z) as Hm0 by lia.
    split; [split; [intros _; exact Hm0 | reflexivity]|].
    split; [intros H; discriminate H | lia].
Qed.

Lemma rate_extremes_witness :
  exists (mutations comparable : Z) (rate : Q),
    compute_mutation_rate "acgt" "ACGT" false = Ok (mutations, comparable, rate) /\
    ((rate == 0)%Q <-> mutations = 0%Z) /\
    ((rate == 1)%Q <-> (mutations = comparable /\ 0 < comparable)%Z).
Proof.
  apply (rate_extremes "acgt" "ACGT" false); [reflexivity | cbn; lia].
Defined.

End CalculatorOrder.

(** * Further properties of the loader *)

Section Trimming.

Import Fasta.

Lemma rstrip_idempotent (s : string) : rstrip (rstrip s) = rstrip s.
Proof.
  induction s as [|c s IH]; [reflexivity|].
  cbn [rstrip]. destruct (rstrip s) as [|d r] eqn:Hr.
  - destruct (is_space c) eqn:Hc; [reflexivity|].
    cbn [rstrip]. now rewrite Hc.
  - cbn [rstrip] in *. now rewrite IH.
Qed.

Lemma lstrip_head (s : string) :
  match lstrip s with
  | EmptyString => True
  | String c _ => is_space c = false
  end.
Proof.
  induction s as [|c s IH]; [exact I|].
  cbn [lstrip]. destruct (is_space c) eqn:Hc; [exact IH | exact Hc].
Qed.

Lemma rstrip_head (c : ascii) (s : string) :
  is_space c = false -> exists r, rstrip (String c s) = String c r.
Proof.
  intros Hc. cbn [rstrip]. destruct (rstrip s) as [|d r].
  - rewrite Hc. now exists EmptyString.
  - now exists (String d r).
Qed.

Lemma lstrip_strip (s : string) : lstrip (strip s) = strip s.
Proof.
  unfold strip. pose proof (lstrip_head s) as Hh.
  destruct (lstrip s) as [|c s']; [reflexivity|].
  destruct (rstrip_head c s' Hh) as [r ->].
  cbn [lstrip]. now rewrite Hh.
Qed.

(** Trimming twice is trimming once. *)
Lemma strip_idempotent (s : string) : strip (strip s) = strip s.
Proof.
  unfold strip at 1. rewrite lstrip_strip.
  unfold strip. apply rstrip_idempotent.
Qed.

Lemma upper_char_idempotent (c : ascii) : upper_char (upper_char c) = upper_char c.
Proof.
  destruct c as [[] [] [] [] [] [] [] []]; reflexivity.
Qed.

Lemma upper_idempotent (s : string) : upper (upper s) = upper s.
Proof.
  induction s as [|c s IH]; [reflexivity|].
  cbn [upper]. now rewrite upper_char_idempotent, IH.
Qed.

End Trimming.

Section LoaderStructure.

Import Spec Fasta.

Lemma flush_is_Some st id :
  is_Some (flush st !! id)
  <-> is_Some (seqs st !! id)
      \/ (truthy (current_id st) = true /\ current_id st = id).
Proof.
  unfold flush. destruct (truthy (current_id st)) eqn:Ht.
  - rewrite lookup_insert_is_Some.
    destruct (String.eqb_spec (current_id st) id) as [He|Hne]; tauto.
  - split; [tauto|]. intros [H|[H _]]; [exact H | discriminate].
Qed.

Lemma header_in_tail raw lines (P : string -> Prop) :
  is_header raw = false ->
  (exists h, In h (raw :: lines) /\ is_header h = true /\ P h)
  <-> (exists h, In h lines /\ is_header h = true /\ P h).
Proof.
  intros Hraw. split; intros (h & Hin & Hh & HP).
  - destruct Hin as [<-|Hin]; [congruence|]. eauto.
  - exists h. cbn. eauto.
Qed.

Lemma blank_is_no_header raw : truthy (strip raw) = false -> is_header raw = false.
Proof.
  intros Ht. destruct (is_header raw) eqn:Hh; [|reflexivity].
  apply header_truthy in Hh. congruence.
Qed.

(** The keys after a run of the loop and the final flush: those held before,
    and the non-empty identifiers of the header lines read. *)
Lemma run_lines_is_Some id lines : forall st,
  is_Some (flush (run_lines lines st) !! id)
  <-> is_Some (flush st !! id)
      \/ (truthy id = true /\
          exists h, In h lines /\ is_header h = true /\ header_id h = id).
Proof.
  induction lines as [|raw lines IH]; intros st.
  - cbn [run_lines fold_left]. split; [tauto|].
    intros [H|(_ & h & [] & _)]. exact H.
  - rewrite run_lines_cons, IH.
    destruct (truthy (strip raw)) eqn:Ht.
    2:{ rewrite (step_blank st raw Ht).
        now rewrite (header_in_tail raw lines (fun h => header_id h = id))
          by now apply blank_is_no_header. }
    destruct (is_header raw) eqn:Hh.
    + rewrite (step_header st raw Hh).
      rewrite (flush_is_Some {| seqs := flush st |}). cbn [seqs current_id].
      split.
      * intros [[H|[Hid <-]]|(Hid & h & Hin & Hhh & Heq)]; eauto.
        -- right. split; [exact Hid|]. exists raw. cbn. eauto.
        -- right. split; [exact Hid|]. exists h. cbn. eauto.
      * intros [H|(Hid & h & [<-|Hin] & Hhh & Heq)]; eauto.
        -- left. right. now subst.
        -- right. eauto.
    + rewrite (step_content st raw Hh Ht).
      rewrite (header_in_tail raw lines (fun h => header_id h = id)) by exact Hh.
      rewrite !flush_is_Some. cbn [seqs current_id]. reflexivity.
Qed.

Lemma parse_lines_is_Some (lines : list string) (id : string) :
  is_Some (parse_lines lines !! id)
  <-> id <> EmptyString /\
      exists h, In h lines /\ is_header h = true /\ header_id h = id.
Proof.
  unfold parse_lines. rewrite run_lines_is_Some.
  rewrite truthy_nonempty. split; [|tauto].
  intros [H|H]; [|exact H]. exfalso.
  apply flush_is_Some in H. cbn in H. destruct H as [[v H]|[H _]].
  - now rewrite lookup_empty in H.
  - discriminate.
Qed.

(** The keys of the collection are exactly the non-empty identifiers of the
    header lines of the input. *)
Theorem read_fasta_keys (content id : string) :
  is_Some (read_fasta content !! id)
  <-> id <> EmptyString /\
      exists h, In h (readlines content) /\
                is_header h = true /\ header_id h = id.
Proof. apply parse_lines_is_Some. Qed.

(** No key of the collection has leading or trailing whitespace. *)
Theorem read_fasta_keys_trimmed (content id : string) :
  is_Some (read_fasta content !! id) -> strip id = id.
Proof.
  intros H. apply parse_lines_is_Some in H as (_ & h & _ & _ & <-).
  apply strip_idempotent.
Qed.

End LoaderStructure.

Section LoaderContent.

Import Spec Fasta.

Lemma flush_values (P : string -> Prop) st :
  (forall s, P (upper s)) ->
  (forall id v, seqs st !! id = Some v -> P v) ->
  forall id v, flush st !! id = Some v -> P v.
Proof.
  intros HP Hinv id v. unfold flush.
  destruct (truthy (current_id st)); [|apply Hinv].
  destruct (String.eqb_spec (current_id st) id) as [<-|Hne].
  - rewrite lookup_insert_eq. intros [= <-]. apply HP.
  - rewrite lookup_insert_ne by exact Hne. apply Hinv.
Qed.

Lemma run_lines_values (P : string -> Prop) lines : forall st,
  (forall s, P (upper s)) ->
  (forall id v, seqs st !! id = Some v -> P v) ->
  forall id v, seqs (run_lines lines st) !! id = Some v -> P v.
Proof.
  induction lines as [|raw lines IH]; intros st HP Hinv; [exact Hinv|].
  rewrite run_lines_cons. apply IH; [exact HP|].
  unfold step. destruct (negb (truthy (strip raw))); [exact Hinv|].
  destruct (startswith (strip raw) ">"); [|exact Hinv].
  now apply flush_values.
Qed.

(** Every sequence of the collection is in upper case: [upper] leaves it as it
    is. *)
Theorem read_fasta_values_upper (content id v : string) :
  read_fasta content !! id = Some v -> upper v = v.
Proof.
  unfold read_fasta, parse_lines.
  apply (flush_values (fun v => upper v = v)); [apply upper_idempotent|].
  apply run_lines_values; [apply upper_idempotent|].
  intros id' v' H. cbn in H. now rewrite lookup_empty in H.
Qed.

Lemma read_fasta_values_upper_witness : upper "ACGT-A" = "ACGT-A".
Proof.
  apply (read_fasta_values_upper two_record_input "seq1" "ACGT-A").
  vm_compute. reflexivity.
Defined.

Lemma step_strip st raw : step st (strip raw) = step st raw.
Proof. unfold step. now rewrite strip_idempotent. Qed.

(** The loop sees a line only through its trimmed form, and blank lines not
    at all. *)
Lemma run_lines_trimmed lines : forall st,
  run_lines (List.filter truthy (map strip lines)) st = run_lines lines st.
Proof.
  induction lines as [|raw lines IH]; intros st; [reflexivity|].
  cbn [map List.filter]. rewrite run_lines_cons.
  destruct (truthy (strip raw)) eqn:Ht.
  - rewrite run_lines_cons, step_strip. apply IH.
  - rewrite (step_blank st raw Ht). apply IH.
Qed.

(** The collection depends on the text only through its trimmed, non-blank
    lines: indentation, trailing whitespace and blank lines never matter. *)
Theorem read_fasta_trimmed_lines (content1 content2 : string) :
  List.filter truthy (map strip (readlines content1))
  = List.filter truthy (map strip (readlines content2)) ->
  read_fasta content1 = read_fasta content2.
Proof.
  intros H. unfold read_fasta, parse_lines.
  rewrite <- (run_lines_trimmed (readlines content1)).
  rewrite <- (run_lines_trimmed (readlines content2)).
  now rewrite H.
Qed.

(** Content lines before the first header are dropped: the collection is that
    of the lines from the first header on, and it is empty when the input has
    no header at all. *)
Theorem read_fasta_leading_content (content : string) (body rest : list string) :
  readlines content = (body ++ rest)%list ->
  no_header body = true ->
  starts_record rest = true ->
  read_fasta content = parse_lines rest /\
  (rest = [] -> read_fasta content = ∅).
Proof.
  intros Hlines Hb Hrest.
  assert (read_fasta content = parse_lines rest) as Heq.
  { unfold read_fasta, parse_lines. rewrite Hlines, run_lines_app.
    rewrite (run_lines_body body initial Hb).
    destruct rest as [|h rest]; [reflexivity|].
    cbn [starts_record] in Hrest.
    now rewrite !run_lines_cons, !(step_header _ h Hrest). }
  split; [exact Heq|]. intros ->. now rewrite Heq.
Qed.

(** Reading one more record assigns its entry: the collection of an input
    that ends with a record of non-empty identifier is the collection of what
    precedes, with the identifier set to the content of the record. *)
Theorem read_fasta_append_record (content : string)
    (pre : list string) (hdr : string) (body : list string) :
  readlines content = (pre ++ hdr :: body)%list ->
  is_header hdr = true ->
  truthy (header_id hdr) = true ->
  no_header body = true ->
  read_fasta content
  = <[ header_id hdr := record_content body ]> (parse_lines pre).
Proof.
  intros Hlines Hh Hid Hb. unfold read_fasta, parse_lines.
  rewrite Hlines, run_lines_app, (run_lines_record hdr body _ Hh Hb).
  unfold flush at 1. cbn [seqs current_id chunks]. now rewrite Hid.
Qed.

End LoaderContent.

(** * The ordered dictionary and the loader on it *)

Section DictFacts.

Lemma to_map_set k v (d : Dict.t) :
  Dict.to_map (Dict.set k v d) = <[ k := v ]> (Dict.to_map d).
Proof.
  unfold Dict.to_map. induction d as [|[k' v'] d IH]; [reflexivity|].
  cbn [Dict.set]. destruct (String.eqb_spec k' k) as [->|Hne].
  - cbn [list_to_map foldr]. cbn. now rewrite insert_insert_eq.
  - cbn. cbn in IH. rewrite IH. now apply insert_insert_ne.
Qed.

Lemma get_to_map k (d : Dict.t) : Dict.get k d = Dict.to_map d !! k.
Proof.
  unfold Dict.to_map. induction d as [|[k' v'] d IH]; [reflexivity|].
  cbn [Dict.get]. cbn. destruct (String.eqb_spec k' k) as [->|Hne].
  - now rewrite lookup_insert_eq.
  - now rewrite lookup_insert_ne.
Qed.

Lemma keys_set k v (d : Dict.t) :
  Dict.keys (Dict.set k v d)
  = if decide (k ∈ Dict.keys d) then Dict.keys d else (Dict.keys d ++ [k])%list.
Proof.
  unfold Dict.keys. induction d as [|[k' v'] d IH].
  - cbn. destruct (decide _) as [H|_]; [|reflexivity].
    now apply elem_of_nil in H.
  - cbn [Dict.set]. destruct (String.eqb_spec k' k) as [->|Hne].
    + clear IH. cbn [map fst]. destruct (decide _) as [_|H]; [reflexivity|].
      exfalso. apply H. left.
    + cbn [map fst]. rewrite IH. clear IH.
      destruct (decide (k ∈ map fst d)) as [Hin|Hin];
        destruct (decide _) as [Hin'|Hin']; trivial.
      * exfalso. apply Hin'. now right.
      * exfalso. apply elem_of_cons in Hin' as [->|Hin']; [now apply Hne|].
        now apply Hin.
Qed.

Lemma get_Some_In k v (d : Dict.t) : Dict.get k d = Some v -> In (k, v) d.
Proof.
  induction d as [|[k' v'] d IH]; [discriminate|].
  cbn [Dict.get]. destruct (String.eqb_spec k' k) as [->|Hne].
  - intros [= ->]. now left.
  - intros H. right. now apply IH.
Qed.

Lemma first_occurrences_snoc (l : list string) (k : string) :
  Ordered.first_occurrences (l ++ [k])
  = if decide (k ∈ Ordered.first_occurrences l)
    then Ordered.first_occurrences l
    else (Ordered.first_occurrences l ++ [k])%list.
Proof.
  unfold Ordered.first_occurrences. rewrite reverse_snoc. cbn [remove_dups].
  destruct (decide_rel elem_of k (reverse l)) as [Hin|Hin];
    destruct (decide (k ∈ reverse (remove_dups (reverse l)))) as [Hin'|Hin'].
  - reflexivity.
  - exfalso. apply Hin'. now rewrite elem_of_reverse, elem_of_remove_dups.
  - exfalso. apply Hin. now rewrite elem_of_reverse, elem_of_remove_dups in Hin'.
  - apply reverse_cons.
Qed.

End DictFacts.

Section OrderedLoader.

Import Spec.

Lemma erase_flush st :
  Dict.to_map (Ordered.flush st) = Fasta.flush (Ordered.erase st).
Proof.
  unfold Ordered.flush, Fasta.flush. cbn [Ordered.erase Fasta.current_id
    Fasta.seqs Fasta.chunks].
  destruct (Fasta.truthy (Ordered.current_id st)); [|reflexivity].
  apply to_map_set.
Qed.

Lemma erase_step st raw :
  Ordered.erase (Ordered.step st raw) = Fasta.step (Ordered.erase st) raw.
Proof.
  unfold Ordered.step, Fasta.step.
  destruct (negb (Fasta.truthy (Fasta.strip raw))); [reflexivity|].
  destruct (Fasta.startswith (Fasta.strip raw) ">"); [|reflexivity].
  unfold Ordered.erase at 1. cbn [Ordered.seqs Ordered.current_id Ordered.chunks].
  now rewrite erase_flush.
Qed.

Lemma erase_run_lines lines : forall st,
  Ordered.erase (Ordered.run_lines lines st)
  = Fasta.run_lines lines (Ordered.erase st).
Proof.
  induction lines as [|raw lines IH]; intros st; [reflexivity|].
  cbn [Ordered.run_lines Fasta.run_lines fold_left].
  rewrite <- erase_step. apply IH.
Qed.

(** The ordered dictionary stands for the collection of [Fasta.read_fasta]. *)
Lemma ordered_to_map (content : string) :
  Dict.to_map (Ordered.read_fasta content) = Fasta.read_fasta content.
Proof.
  unfold Ordered.read_fasta, Fasta.read_fasta, Fasta.parse_lines.
  now rewrite erase_flush, erase_run_lines.
Qed.

Lemma ordered_get (content k : string) :
  Dict.get k (Ordered.read_fasta content) = Fasta.read_fasta content !! k.
Proof. now rewrite get_to_map, ordered_to_map. Qed.

Lemma header_ids_snoc lines raw :
  Ordered.header_ids (lines ++ [raw])
  = (Ordered.header_ids lines
     ++ (if is_header raw && Fasta.truthy (header_id raw)
         then [header_id raw] else []))%list.
Proof.
  unfold Ordered.header_ids. rewrite List.filter_app, map_app, List.filter_app.
  f_equal. cbn [List.filter]. destruct (is_header raw); [|reflexivity].
  cbn [map List.filter andb]. now destruct (Fasta.truthy (header_id raw)).
Qed.

Lemma ordered_run_lines_snoc lines raw st :
  Ordered.run_lines (lines ++ [raw]) st
  = Ordered.step (Ordered.run_lines lines st) raw.
Proof. unfold Ordered.run_lines. now rewrite fold_left_app. Qed.

Lemma keys_flush_chunks (m : Dict.t) id cs cs' :
  Dict.keys (Ordered.flush {| Ordered.seqs := m; Ordered.current_id := id;
                              Ordered.chunks := cs |})
  = Dict.keys (Ordered.flush {| Ordered.seqs := m; Ordered.current_id := id;
                                Ordered.chunks := cs' |}).
Proof.
  unfold Ordered.flush. cbn [Ordered.seqs Ordered.current_id Ordered.chunks].
  destruct (Fasta.truthy id); [|reflexivity]. now rewrite !keys_set.
Qed.

(** The keys after the lines read so far, in their order. *)
Lemma ordered_keys_lines (lines : list string) :
  Dict.keys (Ordered.flush (Ordered.run_lines lines Ordered.initial))
  = Ordered.first_occurrences (Ordered.header_ids lines).
Proof.
  induction lines as [|raw lines IH] using rev_ind; [reflexivity|].
  rewrite ordered_run_lines_snoc, header_ids_snoc.
  set (st := Ordered.run_lines lines Ordered.initial) in *.
  unfold Ordered.step.
  destruct (Fasta.truthy (Fasta.strip raw)) eqn:Ht; cbn [negb].
  2:{ rewrite (blank_is_no_header raw Ht). cbn [andb].
      now rewrite app_nil_r. }
  destruct (is_header raw) eqn:Hh.
  - unfold is_header in Hh. rewrite Hh. cbn [andb].
    change (Fasta.strip (Fasta.drop1 (Fasta.strip raw))) with (header_id raw).
    unfold Ordered.flush at 1. cbn [Ordered.seqs Ordered.current_id Ordered.chunks].
    destruct (Fasta.truthy (header_id raw)).
    + now rewrite keys_set, first_occurrences_snoc, IH.
    + now rewrite app_nil_r.
  - unfold is_header in Hh. rewrite Hh. cbn [andb]. rewrite app_nil_r, <- IH.
    destruct st as [m id cs]. apply keys_flush_chunks.
Qed.

(** The dictionary holds each identifier once, at the place of its first
    header line: [items()] goes through the non-empty identifiers in the order
    in which the file first names them. *)
Theorem read_fasta_order (content : string) :
  Dict.keys (Ordered.read_fasta content)
  = Ordered.first_occurrences (Ordered.header_ids (Fasta.readlines content)).
Proof. apply ordered_keys_lines. Qed.

Lemma ordered_keys_NoDup (content : string) :
  NoDup (Dict.keys (Ordered.read_fasta content)).
Proof.
  unfold Ordered.read_fasta. rewrite ordered_keys_lines.
  unfold Ordered.first_occurrences.
  rewrite reverse_Permutation. apply NoDup_remove_dups.
Qed.

End OrderedLoader.

(** * Properties of the command-line application *)

Section MainFacts.

Import Main.

Lemma length_in_lengths (seqs : Dict.t) k v :
  In (k, v) seqs -> String.length v ∈ lengths seqs.
Proof.
  intros Hin. unfold lengths, Dict.values.
  apply elem_of_list_to_set, list_elem_of_In.
  apply (in_map String.length), (in_map snd _ (k, v)), Hin.
Qed.

Lemma lengths_elem (seqs : Dict.t) n :
  n ∈ lengths seqs -> exists k v, In (k, v) seqs /\ String.length v = n.
Proof.
  unfold lengths, Dict.values. rewrite elem_of_list_to_set, list_elem_of_In.
  intros H. apply in_map_iff in H as (v & <- & H).
  apply in_map_iff in H as ([k v'] & <- & H). eauto.
Qed.

(** The alignment check passes exactly when every sequence is as long as the
    reference. *)
Lemma aligned_iff (seqs : Dict.t) k ref_seq :
  In (k, ref_seq) seqs ->
  size (lengths seqs) = 1%nat
  <-> (forall k' v, In (k', v) seqs -> String.length v = String.length ref_seq).
Proof.
  intros Href. split.
  - intros Hsize k' v Hin. apply size_1_elem_of in Hsize as [x Hx].
    pose proof (length_in_lengths seqs k ref_seq Href) as H1.
    pose proof (length_in_lengths seqs k' v Hin) as H2.
    rewrite Hx in H1, H2. apply elem_of_singleton in H1, H2. congruence.
  - intros Hall.
    assert (lengths seqs ≡ {[ String.length ref_seq ]}) as ->.
    { intros n. rewrite elem_of_singleton. split.
      - intros H. apply lengths_elem in H as (k' & v & Hin & <-). eauto.
      - intros ->. eapply length_in_lengths, Href. }
    apply size_singleton.
Qed.

(** The loop over sequences as long as the reference ends without exception,
    with one record per item, in order, holding the calculator's triple. *)
Lemma compute_records_aligned ref_seq flag (items : list (string * string)) :
  (forall k v, In (k, v) items -> String.length v = String.length ref_seq) ->
  exists results,
    compute_records ref_seq flag items = Ok results /\
    Forall2 (fun rec item =>
               sequence_id rec = item.1 /\
               Mutation.compute_mutation_rate ref_seq item.2 flag
               = Ok (mutations rec, comparable_positions rec, mutation_rate rec))
            results items.
Proof.
  induction items as [|[k v] items IH]; intros Hall.
  - exists []. split; [reflexivity | constructor].
  - destruct IH as (results & Hres & Hall2).
    { intros k' v' Hin. apply (Hall k'). now right. }
    assert (String.length ref_seq = String.length v) as Hlen
      by (symmetry; apply (Hall k); now left).
    cbn [compute_records].
    rewrite (compute_equal_length ref_seq v flag Hlen), Hres.
    eexists. split; [reflexivity|].
    constructor; [|exact Hall2]. cbn. split; [reflexivity|].
    now rewrite (compute_equal_length ref_seq v flag Hlen).
Qed.

End MainFacts.

Section MainRun.

Import Main.

Lemma failure_code code message : exit_code (failure code message) = code.
Proof. reflexivity. Qed.

Lemma deliver_code rt output csv :
  exit_code (deliver rt output csv) = 0%Z
  \/ exit_code (deliver rt output csv) = 4%Z /\
     exists path message,
       output = Some path /\
       write_text rt path (csv +:+ Fasta.nl) = Failed message.
Proof.
  unfold deliver. destruct output as [path|]; [|now left].
  destruct (Fasta.truthy path); [|now left].
  destruct (write_text rt path (csv +:+ Fasta.nl)) as [u|message] eqn:Hw;
    [now left|].
  right. split; [reflexivity|]. eauto.
Qed.

Lemma aligned_or_not ref_seq (items : list (string * string)) :
  (forall k v, In (k, v) items -> String.length v = String.length ref_seq)
  \/ exists k v, In (k, v) items /\ String.length v <> String.length ref_seq.
Proof.
  induction items as [|[k v] items [IH|(k' & v' & Hin & Hne)]].
  - left. intros k v [].
  - destruct (Nat.eq_dec (String.length v) (String.length ref_seq)) as [He|Hne].
    + left. intros k' v' [[= <- <-]|Hin]; [exact He | now apply (IH k')].
    + right. exists k, v. split; [now left | exact Hne].
  - right. exists k', v'. split; [now right | exact Hne].
Qed.

(** What [run] does once the file has been read and the reference found. *)
Lemma run_with_reference rt args content ref_seq :
  read_text rt (input args) = Done content ->
  Fasta.read_fasta content !! reference args = Some ref_seq ->
  (exists k v, Fasta.read_fasta content !! k = Some v /\
               String.length v <> String.length ref_seq) /\
  run rt args
  = Ok (failure 3 "FASTA appears not aligned: sequences have different lengths")
  \/
  (forall k v, Fasta.read_fasta content !! k = Some v ->
               String.length v = String.length ref_seq) /\
  exists results,
    compute_records ref_seq (exclude_gaps args) (Ordered.read_fasta content)
    = Ok results /\
    Forall2 (fun rec item => record_of ref_seq (exclude_gaps args) item.1 item.2 rec)
            results (Ordered.read_fasta content) /\
    run rt args = Ok (deliver rt (output args) (csv_out rt results)).
Proof.
  intros Hread Href. unfold run. rewrite Hread. cbn zeta.
  rewrite ordered_get, Href.
  assert (In (reference args, ref_seq) (Ordered.read_fasta content)) as Hin.
  { apply get_Some_In. now rewrite ordered_get. }
  assert (forall k v, In (k, v) (Ordered.read_fasta content)
                      <-> Fasta.read_fasta content !! k = Some v) as Hitems.
  { intros k v. rewrite <- ordered_to_map. unfold Dict.to_map.
    rewrite <- list_elem_of_In. apply elem_of_list_to_map.
    apply ordered_keys_NoDup. }
  destruct (Nat.eqb_spec (size (lengths (Ordered.read_fasta content))) 1)
    as [Hsize|Hsize]; cbn [negb].
  - right. pose proof (proj1 (aligned_iff _ _ _ Hin) Hsize) as Hall.
    split; [intros k v Hk; apply (Hall k), Hitems, Hk|].
    destruct (compute_records_aligned ref_seq (exclude_gaps args) _ Hall)
      as (results & Hres & Hrec).
    exists results. rewrite Hres. repeat split; trivial.
  - left. split; [|reflexivity].
    destruct (aligned_or_not ref_seq (Ordered.read_fasta content))
      as [Hall|(k & v & Hk & Hne)].
    + exfalso. now apply Hsize, (aligned_iff _ _ _ Hin).
    + exists k, v. split; [now apply Hitems | exact Hne].
Qed.

(** [run] always returns: the [ValueError] of the calculator cannot leave it,
    since the alignment check has passed before the calculator is called. *)
Theorem run_returns (rt : runtime) (args : Args) :
  exists o : outcome, run rt args = Ok o.
Proof.
  destruct (read_text rt (input args)) as [content|message] eqn:Hread.
  2:{ unfold run. rewrite Hread. eauto. }
  destruct (Fasta.read_fasta content !! reference args) as [ref_seq|] eqn:Href.
  2:{ unfold run. rewrite Hread. cbn zeta. rewrite ordered_get, Href. eauto. }
  destruct (run_with_reference rt args content ref_seq Hread Href)
    as [[_ ->]|(_ & results & _ & _ & ->)]; eauto.
Qed.

(** The meaning of the exit codes: 1 when the file cannot be read, 2 when the
    reference is no key of the collection, 3 when some sequence is not as long
    as the reference, 4 when the output file cannot be written, 0 otherwise. *)
Theorem run_exit_codes (rt : runtime) (args : Args) (o : outcome) :
  run rt args = Ok o ->
  (exit_code o = 1%Z <-> exists message, read_text rt (input args) = Failed message) /\
  (forall content, read_text rt (input args) = Done content ->
     (exit_code o = 2%Z <-> Fasta.read_fasta content !! reference args = None) /\
     (exit_code o = 3%Z <->
        exists ref_seq k v,
          Fasta.read_fasta content !! reference args = Some ref_seq /\
          Fasta.read_fasta content !! k = Some v /\
          String.length v <> String.length ref_seq)) /\
  (exit_code o = 4%Z ->
     exists path csv message,
       output args = Some path /\ write_text rt path csv = Failed message) /\
  (0 <= exit_code o <= 4)%Z.
Proof.
  intros Hrun.
  destruct (read_text rt (input args)) as [content|message] eqn:Hread.
  2:{ unfold run in Hrun. rewrite Hread in Hrun. injection Hrun as <-.
      cbn [failure exit_code]. split; [|split; [|split]].
      - split; eauto.
      - intros content [=].
      - intros H. lia.
      - lia. }
  assert ((exists message, @Done string content = Failed message) -> False)
    as Hnot by (intros [m Hm]; discriminate).
  destruct (Fasta.read_fasta content !! reference args) as [ref_seq|] eqn:Href.
  2:{ unfold run in Hrun. rewrite Hread in Hrun. cbn zeta in Hrun.
      rewrite ordered_get, Href in Hrun. injection Hrun as <-.
      cbn [failure exit_code]. split; [|split; [|split]].
      - split; [intros H; lia | intros H; destruct (Hnot H)].
      - intros content' [= <-]. rewrite Href. split; [tauto|].
        split; [intros H; lia|]. intros (r & _ & _ & Hr & _). discriminate.
      - intros H. lia.
      - lia. }
  destruct (run_with_reference rt args content ref_seq Hread Href)
    as [[Hex Hrun']|(Hall & results & _ & _ & Hrun')];
    rewrite Hrun' in Hrun; injection Hrun as <-.
  - cbn [failure exit_code]. split; [|split; [|split]].
    + split; [intros H; lia | intros H; destruct (Hnot H)].
    + intros content' [= <-]. rewrite Href.
      split; [split; [intros H; lia | discriminate]|].
      split; [|reflexivity]. intros _.
      destruct Hex as (k & v & Hk & Hne). eauto 6.
    + intros H. lia.
    + lia.
  - assert (forall content', Done content = Done content' ->
              ~ exists r k v,
                  Fasta.read_fasta content' !! reference args = Some r /\
                  Fasta.read_fasta content' !! k = Some v /\
                  String.length v <> String.length r) as Haligned.
    { intros content' [= <-] (r & k & v & Hr & Hk & Hne).
      rewrite Href in Hr. injection Hr as <-. exact (Hne (Hall k v Hk)). }
    destruct (deliver_code rt (output args) (csv_out rt results))
      as [H0|[H4 (path & message & Hout & Hw)]].
    + rewrite H0. split; [|split; [|split]].
      * split; [intros H; lia | intros H; destruct (Hnot H)].
      * intros content' Hc. split.
        -- injection Hc as <-. rewrite Href.
           split; [intros H; lia | discriminate].
        -- split; [intros H; lia | intros H; destruct (Haligned _ Hc H)].
      * intros H. lia.
      * lia.
    + rewrite H4. split; [|split; [|split]].
      * split; [intros H; lia | intros H; destruct (Hnot H)].
      * intros content' Hc. split.
        -- injection Hc as <-. rewrite Href.
           split; [intros H; lia | discriminate].
        -- split; [intros H; lia | intros H; destruct (Haligned _ Hc H)].
      * intros _. eauto.
      * lia.
Qed.

End MainRun.

Section MainOutput.

Import Main.

Lemma deliver_shape rt output csv :
  (exists path message,
     output = Some path /\
     deliver rt output csv
     = {| exit_code := 4; stdout := []; stderr := [message];
          written := option_map (pair path)
                       (left_behind rt path (csv +:+ Fasta.nl)) |})
  \/ deliver rt output csv
     = {| exit_code := 0; stdout := [csv]; stderr := []; written := None |}
  \/ exists path,
       output = Some path /\
       deliver rt output csv
       = {| exit_code := 0; stdout := ["Wrote results to " +:+ path];
            stderr := []; written := Some (path, csv +:+ Fasta.nl) |}.
Proof.
  unfold deliver. destruct output as [path|]; [|now right; left].
  destruct (Fasta.truthy path); [|now right; left].
  destruct (write_text rt path (csv +:+ Fasta.nl)) as [u|message]; eauto 6.
Qed.

(** The shape of every outcome: a failure with its code and one message, or
    the delivery of the table of the records computed. *)
Lemma run_shape rt args o :
  run rt args = Ok o ->
  (exists code message, (1 <= code <= 3)%Z /\ o = failure code message)
  \/ exists content ref_seq results,
       read_text rt (input args) = Done content /\
       Fasta.read_fasta content !! reference args = Some ref_seq /\
       Forall2 (fun rec item =>
                  record_of ref_seq (exclude_gaps args) item.1 item.2 rec)
               results (Ordered.read_fasta content) /\
       o = deliver rt (output args) (csv_out rt results).
Proof.
  intros Hrun.
  destruct (read_text rt (input args)) as [content|message] eqn:Hread.
  2:{ unfold run in Hrun. rewrite Hread in Hrun. injection Hrun as <-.
      left. eexists _, _. split; [|reflexivity]. lia. }
  destruct (Fasta.read_fasta content !! reference args) as [ref_seq|] eqn:Href.
  2:{ unfold run in Hrun. rewrite Hread in Hrun. cbn zeta in Hrun.
      rewrite ordered_get, Href in Hrun. injection Hrun as <-.
      left. eexists _, _. split; [|reflexivity]. lia. }
  destruct (run_with_reference rt args content ref_seq Hread Href)
    as [[_ Hrun']|(_ & results & _ & Hrec & Hrun')];
    rewrite Hrun' in Hrun; injection Hrun as <-.
  - left. eexists _, _. split; [|reflexivity]. lia.
  - right. exists content, ref_seq, results. auto.
Qed.

(** A run that fails is silent: nothing goes to standard output and one
    message goes to standard error.  With the codes 1, 2 and 3 no file has
    been opened for writing; with the code 4 the only file the run can leave
    behind, truncated or partly written, is the one named by [--output].  A
    run that succeeds prints nothing to standard error. *)
Theorem run_failure_is_silent (rt : runtime) (args : Args) (o : outcome) :
  run rt args = Ok o ->
  (exit_code o <> 0%Z ->
     stdout o = [] /\ exists message, stderr o = [message]) /\
  (exit_code o <> 0%Z -> exit_code o <> 4%Z -> written o = None) /\
  (exit_code o = 4%Z ->
     forall path text, written o = Some (path, text) -> output args = Some path) /\
  (exit_code o = 0%Z -> stderr o = []).
Proof.
  intros Hrun.
  destruct (run_shape rt args o Hrun)
    as [(code & message & Hcode & ->)|(content & ref_seq & results & _ & _ & _ & ->)].
  - cbn [failure exit_code stdout stderr written].
    split; [eauto|]. split; [reflexivity|].
    split; [discriminate | intros H; lia].
  - destruct (deliver_shape rt (output args) (csv_out rt results))
      as [(path & message & Hout & ->)|[->|(path & _ & ->)]];
      cbn [exit_code stdout stderr written].
    + split; [eauto|]. split; [intros _ H; now destruct H|].
      split; [|intros H; lia]. intros _ path' text Hw. rewrite Hout.
      destruct (left_behind rt path (csv_out rt results +:+ Fasta.nl));
        [|discriminate]. now injection Hw as <- _.
    + split; [intros H; now destruct H|].
      split; [reflexivity|]. split; [intros H; lia | reflexivity].
    + split; [intros H; now destruct H|].
      split; [intros H; now destruct H|].
      split; [intros H; lia | reflexivity].
Qed.

Lemma Forall2_In_r {A B : Type} (R : A -> B -> Prop) (l : list A) (l' : list B) y :
  Forall2 R l l' -> In y l' -> exists x, In x l /\ R x y.
Proof.
  induction 1 as [|x y' l l' HR _ IH]; intros Hin; [destruct Hin|].
  destruct Hin as [<-|Hin].
  - exists x. split; [now left | exact HR].
  - destruct (IH Hin) as (x' & Hx & HR'). exists x'. split; [now right | exact HR'].
Qed.

Lemma Forall2_fst {A : Type} (f : A -> string) (R : A -> string * string -> Prop)
    (l : list A) (l' : list (string * string)) :
  Forall2 (fun x y => f x = y.1 /\ R x y) l l' -> map f l = map fst l'.
Proof.
  induction 1 as [|x y l l' [Hf _] _ IH]; [reflexivity|].
  cbn [map]. now rewrite Hf, IH.
Qed.

Lemma self_comparison (r : string) (flag : bool) (m c : Z) (q : Q) :
  Mutation.compute_mutation_rate r r flag = Ok (m, c, q) ->
  m = 0%Z /\ (q == 0)%Q.
Proof.
  rewrite (compute_equal_length r r flag eq_refl).
  rewrite (count_indices_none _ (Spec.counted_mutation flag r r)).
  - intros [= <- <- <-]. split; [reflexivity | apply rate_of_no_mutation].
  - intros i _. unfold Spec.counted_mutation.
    rewrite mismatch_at_self. apply andb_false_r.
Qed.

(** A successful run delivers the table of one record per sequence of the
    collection, in the order of the dictionary, each holding the identifier
    and the calculator's triple of that sequence against the reference. *)
Theorem run_table (rt : runtime) (args : Args) (o : outcome) :
  run rt args = Ok o ->
  exit_code o = 0%Z ->
  exists content ref_seq results,
    read_text rt (input args) = Done content /\
    Fasta.read_fasta content !! reference args = Some ref_seq /\
    map sequence_id results = Dict.keys (Ordered.read_fasta content) /\
    (forall rec, In rec results ->
       exists seq,
         Fasta.read_fasta content !! sequence_id rec = Some seq /\
         Mutation.compute_mutation_rate ref_seq seq (exclude_gaps args)
         = Ok (mutations rec, comparable_positions rec, mutation_rate rec)) /\
    o = deliver rt (output args) (csv_out rt results).
Proof.
  intros Hrun Hcode.
  destruct (run_shape rt args o Hrun)
    as [(code & message & Hc & ->)|(content & ref_seq & results & Hread & Href & Hrec & ->)].
  { cbn [failure exit_code] in Hcode. lia. }
  exists content, ref_seq, results.
  split; [exact Hread|]. split; [exact Href|]. split; [|split; [|reflexivity]].
  - unfold Dict.keys.
    apply (Forall2_fst sequence_id
             (fun rec item =>
                Mutation.compute_mutation_rate ref_seq item.2 (exclude_gaps args)
                = Ok (mutations rec, comparable_positions rec, mutation_rate rec))).
    exact Hrec.
  - intros rec Hin. apply Forall2_flip in Hrec.
    destruct (Forall2_In_r _ _ _ rec Hrec Hin) as ([k v] & Hitem & Hid & Hcomp).
    cbn [fst snd] in *. exists v. split; [|exact Hcomp].
    rewrite Hid, <- ordered_get. clear - Hitem.
    pose proof (ordered_keys_NoDup content) as Hnd.
    rewrite get_to_map. unfold Dict.to_map.
    apply elem_of_list_to_map; [exact Hnd | now apply list_elem_of_In].
Qed.

(** In the table of a successful run the reference has a record of its own,
    with no mutation and the rate zero. *)
Theorem run_reference_record (rt : runtime) (args : Args) (o : outcome) :
  run rt args = Ok o ->
  exit_code o = 0%Z ->
  exists results rec,
    o = deliver rt (output args) (csv_out rt results) /\
    In rec results /\
    sequence_id rec = reference args /\
    mutations rec = 0%Z /\
    (mutation_rate rec == 0)%Q.
Proof.
  intros Hrun Hcode.
  destruct (run_shape rt args o Hrun)
    as [(code & message & Hc & ->)|(content & ref_seq & results & Hread & Href & Hrec & ->)].
  { cbn [failure exit_code] in Hcode. lia. }
  assert (In (reference args, ref_seq) (Ordered.read_fasta content)) as Hin.
  { apply get_Some_In. now rewrite ordered_get. }
  destruct (Forall2_In_r _ _ _ _ Hrec Hin) as (rec & Hr & Hid & Hcomp).
  cbn [fst snd] in *.
  destruct (self_comparison _ _ _ _ _ Hcomp) as [Hm Hq].
  exists results, rec. auto.
Qed.

(** With [--output] the file receives the text that would have been printed,
    followed by a line feed, and standard output the notice of it. *)
Theorem run_file_holds_table (rt : runtime) (path ref_id : string)
    (flag : bool) (target csv : string) :
  Fasta.truthy target = true ->
  run rt {| input := path; reference := ref_id; exclude_gaps := flag;
            output := None |}
  = Ok {| exit_code := 0; stdout := [csv]; stderr := []; written := None |} ->
  write_text rt target (csv +:+ Fasta.nl) = Done tt ->
  run rt {| input := path; reference := ref_id; exclude_gaps := flag;
            output := Some target |}
  = Ok {| exit_code := 0; stdout := ["Wrote results to " +:+ target];
          stderr := [];
          written := Some (target, csv +:+ Fasta.nl) |}.
Proof.
  intros Ht Hrun Hw. unfold run in *. cbn [input reference exclude_gaps output] in *.
  destruct (read_text rt path) as [content|message]; [|discriminate].
  cbn zeta in *.
  destruct (Dict.get ref_id (Ordered.read_fasta content)) as [ref_seq|];
    [|discriminate].
  destruct (negb (size (lengths (Ordered.read_fasta content)) =? 1)%nat);
    [discriminate|].
  destruct (compute_records ref_seq flag (Ordered.read_fasta content))
    as [results|e]; [|discriminate].
  unfold deliver in *. injection Hrun as ->. now rewrite Ht, Hw.
Qed.

End MainOutput.

(** * Line breaks never reach the collection *)

Section LineBreaks.

Import Spec Notions Fasta.

Lemma universal_newlines_no_CR (s : string) :
  forallb (fun c => negb (Ascii.eqb c CR)) (list_ascii_of_string (universal_newlines s)) = true
  /\ forall c,
       forallb (fun c => negb (Ascii.eqb c CR))
         (list_ascii_of_string (universal_newlines (String c s))) = true.
Proof.
  induction s as [|c' s [IH1 IH2]].
  - split; [reflexivity|]. intros c. cbn [universal_newlines].
    destruct (Ascii.eqb c CR) eqn:Hc; [reflexivity|]. cbn. now rewrite Hc.
  - split; [apply IH2|]. intros c.
    change (universal_newlines (String c (String c' s)))
      with (if Ascii.eqb c CR
            then String LF (if Ascii.eqb c' LF then universal_newlines s
                            else universal_newlines (String c' s))
            else String c (universal_newlines (String c' s))).
    destruct (Ascii.eqb c CR) eqn:Hc.
    + cbn [list_ascii_of_string forallb]. change (Ascii.eqb LF CR) with false.
      cbn [negb andb]. destruct (Ascii.eqb c' LF); [exact IH1 | apply IH2].
    + cbn [list_ascii_of_string forallb]. rewrite Hc. cbn [negb andb]. apply IH2.
Qed.

Lemma split_keepends_lines (s : string) :
  forallb (fun c => negb (Ascii.eqb c CR)) (list_ascii_of_string s) = true ->
  Forall (fun l => break_only_last l = true) (split_keepends s).
Proof.
  induction s as [|c s IH]; intros Hs; [constructor|].
  cbn [list_ascii_of_string forallb] in Hs.
  apply andb_true_iff in Hs as [Hc Hs]. apply negb_true_iff in Hc.
  specialize (IH Hs). cbn [split_keepends].
  destruct (Ascii.eqb c LF) eqn:Hlf.
  - constructor; [reflexivity | exact IH].
  - destruct (split_keepends s) as [|l ls].
    + constructor; [|constructor]. cbn. unfold is_break. now rewrite Hlf, Hc.
    + inversion IH as [|? ? Hl Hls]; subst. constructor; [|exact Hls].
      cbn [break_only_last]. unfold is_break. now rewrite Hlf, Hc.
Qed.

(** The lines the file object yields hold a break only as last character. *)
Lemma readlines_lines (content : string) :
  Forall (fun l => break_only_last l = true) (readlines content).
Proof. apply split_keepends_lines, universal_newlines_no_CR. Qed.

Lemma is_break_space c : is_break c = true -> is_space c = true.
Proof.
  unfold is_break. intros H. apply orb_true_iff in H as [H|H];
    apply Ascii.eqb_eq in H; subst; reflexivity.
Qed.

Lemma break_only_last_lstrip (s : string) :
  break_only_last s = true -> break_only_last (lstrip s) = true.
Proof.
  induction s as [|c s IH]; intros H; [reflexivity|].
  cbn [lstrip]. destruct (is_space c); [|exact H].
  apply IH. cbn [break_only_last] in H.
  destruct (is_break c); [|exact H]. now destruct s.
Qed.

Lemma no_break_rstrip (s : string) :
  break_only_last s = true -> no_break (rstrip s) = true.
Proof.
  induction s as [|c s IH]; intros H; [reflexivity|].
  cbn [break_only_last] in H. cbn [rstrip].
  destruct (is_break c) eqn:Hb.
  - destruct s; [|discriminate]. cbn [rstrip].
    now rewrite (is_break_space c Hb).
  - specialize (IH H). destruct (rstrip s) as [|d r].
    + destruct (is_space c); [reflexivity|]. cbn. now rewrite Hb.
    + cbn [no_break] in *. now rewrite Hb, IH.
Qed.

Lemma no_break_strip (s : string) :
  break_only_last s = true -> no_break (strip s) = true.
Proof. intros H. now apply no_break_rstrip, break_only_last_lstrip. Qed.

Lemma no_break_only_last (s : string) :
  no_break s = true -> break_only_last s = true.
Proof.
  induction s as [|c s IH]; [reflexivity|]. cbn.
  intros H. apply andb_true_iff in H as [Hc Hs].
  apply negb_true_iff in Hc. rewrite Hc. now apply IH.
Qed.

Lemma no_break_drop1 (s : string) : no_break s = true -> no_break (drop1 s) = true.
Proof.
  destruct s as [|c s]; [reflexivity|]. cbn.
  intros H. now apply andb_true_iff in H as [_ H].
Qed.

Lemma no_break_app (s1 s2 : string) :
  no_break s1 = true -> no_break s2 = true -> no_break (s1 +:+ s2) = true.
Proof.
  induction s1 as [|c s1 IH]; intros H1 H2; [exact H2|].
  change (String c s1 +:+ s2) with (String c (s1 +:+ s2)).
  cbn [no_break] in *. apply andb_true_iff in H1 as [Hc H1].
  rewrite Hc. now apply IH.
Qed.

Lemma no_break_join (cs : list string) :
  Forall (fun c => no_break c = true) cs -> no_break (join cs) = true.
Proof.
  unfold join. induction 1 as [|c cs Hc Hcs IH]; [reflexivity|].
  cbn [String.concat]. destruct cs as [|c' cs']; [exact Hc|].
  apply no_break_app; [exact Hc|]. now apply no_break_app.
Qed.

Lemma is_break_upper_char (c : ascii) : is_break (upper_char c) = is_break c.
Proof. destruct c as [[] [] [] [] [] [] [] []]; reflexivity. Qed.

Lemma no_break_upper (s : string) : no_break (upper s) = no_break s.
Proof.
  induction s as [|c s IH]; [reflexivity|].
  cbn [upper no_break]. now rewrite is_break_upper_char, IH.
Qed.

Lemma flush_break_free st :
  break_free st ->
  forall id v, flush st !! id = Some v ->
               no_break id = true /\ no_break v = true.
Proof.
  intros (Hseqs & Hid & Hchunks) id v. unfold flush.
  destruct (truthy (current_id st)); [|apply Hseqs].
  destruct (String.eqb_spec (current_id st) id) as [<-|Hne].
  - rewrite lookup_insert_eq. intros [= <-]. split; [exact Hid|].
    rewrite no_break_upper. now apply no_break_join.
  - rewrite lookup_insert_ne by exact Hne. apply Hseqs.
Qed.

Lemma step_break_free st raw :
  break_only_last raw = true -> break_free st -> break_free (step st raw).
Proof.
  intros Hraw Hst. pose proof (no_break_strip raw Hraw) as Hline.
  unfold step. destruct (negb (truthy (strip raw))); [exact Hst|].
  destruct (startswith (strip raw) ">").
  - split; [|split]; cbn [seqs current_id chunks].
    + now apply flush_break_free.
    + now apply no_break_strip, no_break_only_last, no_break_drop1.
    + constructor.
  - destruct Hst as (Hseqs & Hid & Hchunks).
    split; [|split]; cbn [seqs current_id chunks]; trivial.
    apply Forall_app. split; [exact Hchunks|]. now constructor.
Qed.

Lemma run_lines_break_free lines : forall st,
  Forall (fun l => break_only_last l = true) lines ->
  break_free st -> break_free (run_lines lines st).
Proof.
  induction lines as [|raw lines IH]; intros st Hlines Hst; [exact Hst|].
  inversion Hlines as [|? ? Hraw Hrest]; subst.
  rewrite run_lines_cons. apply IH; [exact Hrest|].
  now apply step_break_free.
Qed.

(** No line feed and no carriage return reaches the collection: neither a
    key nor a sequence holds one, however the lines of the file end. *)
Theorem read_fasta_no_line_break (content id v : string) :
  read_fasta content !! id = Some v ->
  no_break id = true /\ no_break v = true.
Proof.
  unfold read_fasta, parse_lines. apply flush_break_free.
  apply run_lines_break_free; [apply readlines_lines|].
  split; [|split]; cbn; [|reflexivity|constructor].
  intros id' v' H. now rewrite lookup_empty in H.
Qed.

End LineBreaks.

(** * The properties above at concrete inputs *)

Section Instances.

Import Spec Notions Fasta Main.

Lemma no_mutation_iff_equal_witness :
  (exists (comparable : Z) (rate : Q),
     Mutation.compute_mutation_rate "AC-T" "AC-T" false = Ok (0%Z, comparable, rate))
  <-> "AC-T" = "AC-T".
Proof. apply (no_mutation_iff_equal "AC-T" "AC-T"). reflexivity. Defined.

Lemma read_fasta_keys_witness :
  exists h, In h (readlines duplicate_input) /\
            is_header h = true /\ header_id h = "X".
Proof.
  apply (read_fasta_keys duplicate_input "X").
  exists "CCGG". vm_compute. reflexivity.
Defined.

Lemma read_fasta_keys_trimmed_witness : strip "X" = "X".
Proof.
  apply (read_fasta_keys_trimmed duplicate_input "X").
  exists "CCGG". vm_compute. reflexivity.
Defined.

Lemma read_fasta_trimmed_lines_witness :
  read_fasta (line "  >A " +:+ line EmptyString +:+ line " ac" +:+ "gt  ")
  = read_fasta (line ">A" +:+ line "ac" +:+ line "gt").
Proof.
  apply read_fasta_trimmed_lines. vm_compute. reflexivity.
Defined.

Lemma read_fasta_leading_content_witness :
  read_fasta (line "ACGT" +:+ line ">A" +:+ line "GG")
  = parse_lines [line ">A"; line "GG"] /\
  ([line ">A"; line "GG"] = [] ->
   read_fasta (line "ACGT" +:+ line ">A" +:+ line "GG") = ∅).
Proof.
  apply (read_fasta_leading_content _ [line "ACGT"] [line ">A"; line "GG"]);
    reflexivity.
Defined.

Lemma read_fasta_append_record_witness :
  read_fasta duplicate_input
  = <[ "Y" := "TTTT" ]>
      (parse_lines [line ">X"; line "aaaa"; line "> X "; line "cc";
                    line EmptyString; line "gg"]).
Proof.
  exact (read_fasta_append_record duplicate_input
           [line ">X"; line "aaaa"; line "> X "; line "cc";
            line EmptyString; line "gg"]
           (line ">Y") [line "tttt"] eq_refl eq_refl eq_refl eq_refl).
Defined.

Lemma read_fasta_no_line_break_witness :
  no_break "seq1" = true /\ no_break "ACGT-A" = true.
Proof.
  apply (read_fasta_no_line_break two_record_input "seq1" "ACGT-A").
  vm_compute. reflexivity.
Defined.

Lemma run_exit_codes_witness :
  exists ref_seq k v,
    read_fasta two_record_input !! "seq1" = Some ref_seq /\
    read_fasta two_record_input !! k = Some v /\
    String.length v <> String.length ref_seq.
Proof.
  destruct (run_exit_codes sample_runtime (sample_args "ragged.fa" "seq1" None)
              (failure 3 "FASTA appears not aligned: sequences have different lengths"))
    as (_ & Hinput & _).
  { vm_compute. reflexivity. }
  destruct (Hinput two_record_input eq_refl) as [_ [H3 _]].
  apply H3. reflexivity.
Defined.

Lemma run_failure_is_silent_witness :
  stdout (failure 2 "Reference sequence not found: s9") = [] /\
  exists message, stderr (failure 2 "Reference sequence not found: s9") = [message].
Proof.
  destruct (run_failure_is_silent sample_runtime (sample_args "aln.fa" "s9" None)
              (failure 2 "Reference sequence not found: s9")) as [H _].
  { vm_compute. reflexivity. }
  apply H. cbn. lia.
Defined.

Example run_on_full_disk :
  run full_disk_runtime (sample_args "aln.fa" "ref" (Some "out.csv"))
  = Ok {| exit_code := 4; stdout := [];
          stderr := ["Error writing output: No space left on device"];
          written := Some ("out.csv", EmptyString) |}.
Proof. vm_compute. reflexivity. Qed.

Lemma run_table_witness :
  exists content ref_seq results,
    read_text sample_runtime "aln.fa" = Done content /\
    read_fasta content !! "s1" = Some ref_seq /\
    map sequence_id results = Dict.keys (Ordered.read_fasta content) /\
    (forall rec, In rec results ->
       exists seq,
         read_fasta content !! sequence_id rec = Some seq /\
         Mutation.compute_mutation_rate ref_seq seq false
         = Ok (mutations rec, comparable_positions rec, mutation_rate rec)) /\
    deliver sample_runtime None
      (header +:+ nl +:+ "ref,1,4,0.250000" +:+ nl +:+ "s1,0,4,0.000000"
       +:+ nl +:+ "s2,2,4,0.500000")
    = deliver sample_runtime None (csv_out sample_runtime results).
Proof.
  apply (run_table sample_runtime (sample_args "aln.fa" "s1" None)).
  - vm_compute. reflexivity.
  - reflexivity.
Defined.

Lemma run_reference_record_witness :
  exists results rec,
    deliver sample_runtime None
      (header +:+ nl +:+ "ref,1,4,0.250000" +:+ nl +:+ "s1,0,4,0.000000"
       +:+ nl +:+ "s2,2,4,0.500000")
    = deliver sample_runtime None (csv_out sample_runtime results) /\
    In rec results /\
    sequence_id rec = "s1" /\
    mutations rec = 0%Z /\
    (mutation_rate rec == 0)%Q.
Proof.
  apply (run_reference_record sample_runtime (sample_args "aln.fa" "s1" None)).
  - vm_compute. reflexivity.
  - reflexivity.
Defined.

Lemma run_file_holds_table_witness :
  run sample_runtime (sample_args "aln.fa" "ref" (Some "out.csv"))
  = Ok {| exit_code := 0; stdout := ["Wrote results to out.csv"];
          stderr := [];
          written :=
            Some ("out.csv",
                  (header +:+ nl +:+ "ref,0,4,0.000000" +:+ nl +:+
                   "s1,1,4,0.250000" +:+ nl +:+ "s2,1,4,0.250000") +:+ nl) |}.
Proof.
  apply (run_file_holds_table sample_runtime "aln.fa" "ref" false "out.csv").
  - reflexivity.
  - vm_compute. reflexivity.
  - reflexivity.
Defined.

End Instances.
